(** * pguuidv7: the UUID version 7 generator of [src/pguuidv7.c]

    A shallow embedding of the SQL function [uuidv7] and the properties of
    its output layout and of its two static variables.

    Conventions of the embedding:
    - C unsigned integers are [Z] values, every conversion and every
      arithmetic result that C reduces is reduced here with [uchar],
      [uint32] or [uint64];
    - the 16-byte buffer [uuid->data] is a [list Z] updated by index;
    - the two [static] variables are the fields of [state], threaded
      through every call;
    - [gettimeofday], [pg_strong_random] and the uninitialised memory that
      [palloc] hands out are inputs of the call;
    - [ereport(ERROR, ...)] leaves the function at once: the call yields
      [Raised] together with the static variables as they are at that
      point. *)

From Stdlib Require Import ZArith Lia List Bool Sorted.
From Stdlib Require Strings.Byte.
From stdpp Require Import base list numbers.

Local Open Scope Z_scope.

(** ** Machine integers *)

Definition uchar (z : Z) : Z := z mod 2 ^ 8.
Definition uint32 (z : Z) : Z := z mod 2 ^ 32.
Definition uint64 (z : Z) : Z := z mod 2 ^ 64.

(** The numeric value of one byte of memory. *)
Definition byte_val (b : Byte.byte) : Z := Z.of_N (Byte.to_N b).

(** ** The collaborators of the function *)

(** [struct timeval], as filled by [gettimeofday]. *)
Record timeval := Timeval { tv_sec : Z; tv_usec : Z }.

(** Modelled from the spec: [pg_strong_random(buf, len)] belongs to
    PostgreSQL, not to this repository.  Asked for [len] bytes, the source
    either fails or supplies them; byte [i] of the answer goes to
    [buf[i]]. *)
Definition RandomSource := nat -> option (nat -> Byte.byte).

(** The static variables of [uuidv7]. *)
Record state := State { sequence_counter : Z; previous_timestamp : Z }.

(** What a call leaves behind: the returned datum or a raised error, and in
    both cases the static variables. *)
Inductive outcome :=
| Returned (uuid : list Z) (st : state)
| Raised (st : state).

Definition state_after (o : outcome) : state :=
  match o with Returned _ st => st | Raised st => st end.

Definition returned (o : outcome) : option (list Z) :=
  match o with Returned u _ => Some u | Raised _ => None end.

(** Modelled from the spec: [UUID_LEN] comes from PostgreSQL's
    [utils/uuid.h]; an identifier has 16 bytes. *)
Definition UUID_LEN : nat := 16.

(** Modelled from the spec: [palloc(n)] belongs to PostgreSQL; it hands
    out [n] bytes whose content is whatever the heap holds. *)
Definition palloc (heap : nat -> Byte.byte) (n : nat) : list Z :=
  map (fun i => byte_val (heap i)) (seq 0 n).

(** Store [len] bytes of [f] at [data[off .. off+len-1]]. *)
Definition store_bytes (data : list Z) (off len : nat) (f : nat -> Byte.byte) : list Z :=
  foldl (fun d i => <[(off + i)%nat := byte_val (f i)]> d) data (seq 0 len).

(** The call succeeds or fails as the source does; on success exactly
    [len] bytes are stored from [data[off]] on. *)
Definition pg_strong_random (rs : RandomSource) (data : list Z) (off len : nat)
  : option (list Z) :=
  match rs len with
  | Some f => Some (store_bytes data off len f)
  | None => None
  end.

(** ** The function, piece by piece *)

(** Lines 73-74: [tms = ((uint64) tp.tv_sec) * 1000 + (tp.tv_usec) / 1000]. *)
Definition now_ms (tp : timeval) : Z :=
  uint64 (uint64 (uint64 (tv_sec tp) * 1000) + uint64 (Z.quot (tv_usec tp) 1000)).

(** Lines 95-97: the counter read back from the buffer. *)
Definition read_counter (data : list Z) : Z :=
  uint32 (uint32 (Z.land (uint32 (data !!! 8%nat)) 0x3f
                  + uint32 (Z.shiftl (uint32 (data !!! 7%nat)) 6))
          + uint32 (Z.shiftl (Z.land (uint32 (data !!! 6%nat)) 0x0f) 14)).

(** Lines 125-129: the counter written to bytes 6, 7 and 8. *)
Definition write_counter (sc : Z) (data : list Z) : list Z :=
  let data := <[6%nat := uchar (Z.shiftr sc 14)]> data in
  let data := <[7%nat := uchar (Z.shiftr sc 6)]> data in
  <[8%nat := uchar sc]> data.

(** Lines 133-138: the time part. *)
Definition fill_time (tms : Z) (data : list Z) : list Z :=
  let data := <[0%nat := uchar (Z.shiftr tms 40)]> data in
  let data := <[1%nat := uchar (Z.shiftr tms 32)]> data in
  let data := <[2%nat := uchar (Z.shiftr tms 24)]> data in
  let data := <[3%nat := uchar (Z.shiftr tms 16)]> data in
  let data := <[4%nat := uchar (Z.shiftr tms 8)]> data in
  <[5%nat := uchar tms]> data.

(** Lines 145-147: version and variant. *)
Definition set_version_variant (data : list Z) : list Z :=
  let data := <[6%nat := uchar (Z.lor (Z.land (data !!! 6%nat) 0x0f) 0x70)]> data in
  <[8%nat := uchar (Z.lor (Z.land (data !!! 8%nat) 0x3f) 0x80)]> data.

(** Lines 107-113: the counter step of a call on which time did not
    advance. *)
Definition bump (st : state) : state :=
  let sc := uint32 (sequence_counter st + 1) in
  if 0x3ffff <? sc
  then {| sequence_counter := 0;
          previous_timestamp := uint64 (previous_timestamp st + 1) |}
  else {| sequence_counter := sc;
          previous_timestamp := previous_timestamp st |}.

(** Lines 62-150. *)
Definition uuidv7 (st : state) (tp : timeval) (rs : RandomSource)
    (heap : nat -> Byte.byte) : outcome :=
  let uuid := palloc heap UUID_LEN in
  let tms := now_ms tp in
  let time_tick_forward := previous_timestamp st <? tms in
  if time_tick_forward then
    match pg_strong_random rs uuid 6 (UUID_LEN - 6) with
    | None => Raised st
    | Some uuid =>
        let uuid := <[6%nat := uchar (Z.land (uuid !!! 6%nat) 0xf7)]> uuid in
        let st := {| sequence_counter := read_counter uuid;
                     previous_timestamp := tms |} in
        Returned (set_version_variant (fill_time tms uuid)) st
    end
  else
    let st := bump st in
    let tms := previous_timestamp st in
    match pg_strong_random rs uuid 9 (UUID_LEN - 9) with
    | None => Raised st
    | Some uuid =>
        let uuid := write_counter (sequence_counter st) uuid in
        Returned (set_version_variant (fill_time tms uuid)) st
    end.

(** A series of calls on one backend: each call starts from the static
    variables the previous one left. *)
Record call := Call { c_clock : timeval; c_random : RandomSource;
                      c_heap : nat -> Byte.byte }.

Fixpoint calls (st : state) (cs : list call) : list outcome :=
  match cs with
  | [] => []
  | c :: cs =>
      let o := uuidv7 st (c_clock c) (c_random c) (c_heap c) in
      o :: calls (state_after o) cs
  end.

(** ** Reading an identifier *)

(** A byte string as a big-endian unsigned integer. *)
Definition be_value (l : list Z) : Z := foldl (fun acc b => acc * 256 + b) 0 l.

(** The whole identifier as a 128-bit integer. *)
Definition uuid_to_Z (uuid : list Z) : Z := be_value uuid.

(** Bytes 0-5. *)
Definition decoded_timestamp (uuid : list Z) : Z := be_value (take 6 uuid).

(** High nibble of byte 6, top two bits of byte 8. *)
Definition version_bits (uuid : list Z) : Z := Z.shiftr (uuid !!! 6%nat) 4.
Definition variant_bits (uuid : list Z) : Z := Z.shiftr (uuid !!! 8%nat) 6.

(** The 18 counter bits: low nibble of byte 6, byte 7, low six bits of
    byte 8, most significant first. *)
Definition decoded_counter (uuid : list Z) : Z :=
  (uuid !!! 6%nat) mod 16 * 2 ^ 14 + (uuid !!! 7%nat) * 2 ^ 6 + (uuid !!! 8%nat) mod 64.

(** A clock that reads [ms] milliseconds. *)
Definition clock_at (ms : Z) : timeval :=
  {| tv_sec := ms / 1000; tv_usec := ms mod 1000 * 1000 |}.

(** A source that always supplies the byte [b], one that always fails. *)
Definition constant_source (b : Byte.byte) : RandomSource := fun _ => Some (fun _ => b).
Definition failing_source : RandomSource := fun _ => None.

(** The identifier that goes with given static variables and a given
    random tail: the layout every returned identifier is shown to have. *)
Definition time_bytes (tms : Z) : list Z :=
  [uchar (Z.shiftr tms 40); uchar (Z.shiftr tms 32); uchar (Z.shiftr tms 24);
   uchar (Z.shiftr tms 16); uchar (Z.shiftr tms 8); uchar tms].

Definition counter_bytes (sc : Z) : list Z :=
  [0x70 + sc / 2 ^ 14; (sc / 2 ^ 6) mod 2 ^ 8; 0x80 + sc mod 2 ^ 6].

Definition layout (st : state) (tail : list Z) : list Z :=
  time_bytes (previous_timestamp st) ++ counter_bytes (sequence_counter st) ++ tail.

Definition is_byte (x : Z) : Prop := 0 <= x < 256.

(** The counter a forward tick seeds from the random bytes at positions 6,
    7 and 8. *)
Definition seeded_counter (f : nat -> Byte.byte) : Z :=
  byte_val (f 0%nat) mod 2 ^ 3 * 2 ^ 14
  + byte_val (f 1%nat) * 2 ^ 6
  + byte_val (f 2%nat) mod 2 ^ 6.

Definition random_tail (f : nat -> Byte.byte) (from len : nat) : list Z :=
  map (fun i => byte_val (f i)) (seq from len).

(** The static variables of a backend that has made no call yet. *)
Definition initial_state : state :=
  {| sequence_counter := 0; previous_timestamp := 0 |}.

(** The test of line 108, on the static variables before the call. *)
Definition counter_overflows (st : state) : bool :=
  0x3ffff <? uint32 (sequence_counter st + 1).

(** The part of the 128-bit value that the counter decides, and the part
    that the static variables decide together. *)
Definition counter_field (sc : Z) : Z :=
  (0x70 + sc / 2 ^ 14) * 2 ^ 16 + (sc / 2 ^ 6) mod 2 ^ 8 * 2 ^ 8 + (0x80 + sc mod 2 ^ 6).

Definition sort_key (st : state) : Z :=
  previous_timestamp st mod 2 ^ 48 * 2 ^ 80 + counter_field (sequence_counter st) * 2 ^ 56.

(** The order of the static variables: time first, counter second. *)
Definition state_lt (s1 s2 : state) : Prop :=
  previous_timestamp s1 < previous_timestamp s2
  \/ (previous_timestamp s1 = previous_timestamp s2
      /\ sequence_counter s1 < sequence_counter s2).

(** Static variables whose counter has 18 bits and whose time has 48. *)
Definition state_ok (st : state) : Prop :=
  0 <= sequence_counter st < 2 ^ 18 /\ 0 <= previous_timestamp st < 2 ^ 48.

Definition within_48_bits (o : outcome) : Prop :=
  previous_timestamp (state_after o) < 2 ^ 48.

(** ** Scenarios of the specification, run on the code *)

Example scenario_A :
  uuidv7 {| sequence_counter := 5; previous_timestamp := 1000 |}
         (clock_at 1000) (constant_source Byte.xff) (fun _ => Byte.x00)
  = Returned [0; 0; 0; 0; 3; 232; 0x70; 0; 0x86; 255; 255; 255; 255; 255; 255; 255]
             {| sequence_counter := 6; previous_timestamp := 1000 |}.
Proof. vm_compute. reflexivity. Qed.

Example scenario_B :
  uuidv7 {| sequence_counter := 262143; previous_timestamp := 1000 |}
         (clock_at 900) (constant_source Byte.xff) (fun _ => Byte.x00)
  = Returned [0; 0; 0; 0; 3; 233; 0x70; 0; 0x80; 255; 255; 255; 255; 255; 255; 255]
             {| sequence_counter := 0; previous_timestamp := 1001 |}.
Proof. vm_compute. reflexivity. Qed.

(** ** Bytes and bit fields *)

Lemma byte_val_range b : is_byte (byte_val b).
Proof.
  unfold is_byte, byte_val. pose proof (Byte.to_N_bounded b). lia.
Qed.

Lemma uchar_range z : is_byte (uchar z).
Proof. unfold is_byte, uchar. apply Z.mod_pos_bound. lia. Qed.

(** A boolean property of one byte is settled by trying the 256 values. *)
Lemma byte_cases (P : Z -> bool) :
  forallb P (map Z.of_nat (seq 0 256)) = true ->
  forall x, is_byte x -> P x = true.
Proof.
  intros H x Hx. rewrite forallb_forall in H. apply H.
  apply in_map_iff. exists (Z.to_nat x). unfold is_byte in Hx.
  split; [lia|]. apply in_seq. lia.
Qed.

Ltac by_byte_cases x Hx :=
  apply Z.eqb_eq; pattern x;
  match goal with
  | |- (fun y => ?b = true) x =>
      exact (byte_cases (fun y => b) ltac:(vm_compute; reflexivity) x Hx)
  end.

Lemma version_byte x :
  is_byte x -> uchar (Z.lor (Z.land x 0x0f) 0x70) = 0x70 + x mod 2 ^ 4.
Proof. intros Hx. by_byte_cases x Hx. Qed.

Lemma variant_byte x :
  is_byte x -> uchar (Z.lor (Z.land x 0x3f) 0x80) = 0x80 + x mod 2 ^ 6.
Proof. intros Hx. by_byte_cases x Hx. Qed.

Lemma clear_bit3_byte x :
  is_byte x -> uchar (Z.land x 0xf7) mod 2 ^ 4 = x mod 2 ^ 3.
Proof. intros Hx. by_byte_cases x Hx. Qed.

Lemma low_nibble x : is_byte x -> Z.land (uint32 x) 0x0f = x mod 2 ^ 4.
Proof. intros Hx. by_byte_cases x Hx. Qed.

Lemma low_six_bits x : is_byte x -> Z.land (uint32 x) 0x3f = x mod 2 ^ 6.
Proof. intros Hx. by_byte_cases x Hx. Qed.

Lemma high_nibble_of_version x : 0 <= x < 16 -> Z.shiftr (0x70 + x) 4 = 7.
Proof.
  intros Hx. rewrite Z.shiftr_div_pow2 by lia. change (2 ^ 4) with 16.
  Z.div_mod_to_equations; lia.
Qed.

Lemma top_bits_of_variant x : 0 <= x < 64 -> Z.shiftr (0x80 + x) 6 = 2.
Proof.
  intros Hx. rewrite Z.shiftr_div_pow2 by lia. change (2 ^ 6) with 64.
  Z.div_mod_to_equations; lia.
Qed.

(** The counter read at lines 95-97, in terms of the three bytes. *)
Lemma read_counter_bytes data b6 b7 b8 :
  data !!! 6%nat = b6 -> data !!! 7%nat = b7 -> data !!! 8%nat = b8 ->
  is_byte b6 -> is_byte b7 -> is_byte b8 ->
  read_counter data = b6 mod 2 ^ 4 * 2 ^ 14 + b7 * 2 ^ 6 + b8 mod 2 ^ 6.
Proof.
  intros <- <- <- H6 H7 H8. unfold read_counter.
  rewrite (low_nibble _ H6), (low_six_bits _ H8).
  rewrite !Z.shiftl_mul_pow2 by lia.
  unfold is_byte in *. unfold uint32.
  rewrite (Z.mod_small (data !!! 7%nat)) by lia.
  generalize dependent (data !!! 6%nat); generalize dependent (data !!! 7%nat);
    generalize dependent (data !!! 8%nat); intros b8 H8 b7 H7 b6 H6.
  Z.div_mod_to_equations; lia.
Qed.

(** Six bytes of time hold the low 48 bits, most significant byte first. *)
Lemma be_value_time_bytes t : be_value (time_bytes t) = t mod 2 ^ 48.
Proof.
  unfold be_value, time_bytes, uchar; cbn [foldl].
  rewrite !Z.shiftr_div_pow2 by lia.
  change (2 ^ 40) with 1099511627776. change (2 ^ 32) with 4294967296.
  change (2 ^ 24) with 16777216. change (2 ^ 16) with 65536.
  change (2 ^ 8) with 256. change (2 ^ 48) with 281474976710656.
  Z.div_mod_to_equations; lia.
Qed.

Lemma now_ms_range tp : 0 <= now_ms tp < 2 ^ 64.
Proof. unfold now_ms, uint64. apply Z.mod_pos_bound. lia. Qed.

Lemma now_ms_clock_at ms : 0 <= ms < 2 ^ 64 -> now_ms (clock_at ms) = ms.
Proof.
  intros Hms. unfold now_ms, clock_at, uint64; cbn [tv_sec tv_usec].
  rewrite Z.quot_mul by lia.
  assert (0 <= ms / 1000 * 1000 <= ms) by (Z.div_mod_to_equations; lia).
  assert (0 <= ms / 1000 < 2 ^ 64) by (Z.div_mod_to_equations; lia).
  assert (0 <= ms mod 1000 < 1000) by (apply Z.mod_pos_bound; lia).
  rewrite (Z.mod_small (ms / 1000)) by lia.
  rewrite (Z.mod_small (ms / 1000 * 1000)) by lia.
  rewrite (Z.mod_small (ms mod 1000)) by lia.
  rewrite Z.mod_small; Z.div_mod_to_equations; lia.
Qed.

(** ** The two branches of a call *)

Ltac bytewise :=
  repeat match goal with |- _ :: _ = _ :: _ => apply (f_equal2 cons) end;
  try reflexivity.

Lemma bump_counter_range st : 0 <= sequence_counter (bump st) < 2 ^ 18.
Proof.
  unfold bump. destruct (Z.ltb_spec 0x3ffff (uint32 (sequence_counter st + 1)));
    cbn [sequence_counter]; [lia|].
  unfold uint32 in *.
  pose proof (Z.mod_pos_bound (sequence_counter st + 1) (2 ^ 32) ltac:(lia)). lia.
Qed.

Lemma seeded_counter_range f : 0 <= seeded_counter f < 2 ^ 17.
Proof.
  unfold seeded_counter.
  pose proof (byte_val_range (f 0%nat)). pose proof (byte_val_range (f 1%nat)).
  pose proof (byte_val_range (f 2%nat)). unfold is_byte in *.
  Z.div_mod_to_equations; lia.
Qed.

Lemma counter_bytes_seeded f :
  counter_bytes (seeded_counter f) =
  [0x70 + byte_val (f 0%nat) mod 2 ^ 3; byte_val (f 1%nat);
   0x80 + byte_val (f 2%nat) mod 2 ^ 6].
Proof.
  unfold counter_bytes, seeded_counter.
  pose proof (byte_val_range (f 0%nat)). pose proof (byte_val_range (f 1%nat)).
  pose proof (byte_val_range (f 2%nat)). unfold is_byte in *.
  bytewise; Z.div_mod_to_equations; lia.
Qed.

Lemma counter_bytes_written sc :
  0 <= sc < 2 ^ 18 ->
  [uchar (Z.lor (Z.land (uchar (Z.shiftr sc 14)) 0x0f) 0x70);
   uchar (Z.shiftr sc 6);
   uchar (Z.lor (Z.land (uchar sc) 0x3f) 0x80)] = counter_bytes sc.
Proof.
  intros Hsc. unfold counter_bytes.
  rewrite (version_byte _ (uchar_range _)), (variant_byte _ (uchar_range _)).
  unfold uchar. rewrite !Z.shiftr_div_pow2 by lia.
  bytewise; Z.div_mod_to_equations; lia.
Qed.

Lemma uuidv7_forward st tp rs heap f :
  previous_timestamp st < now_ms tp ->
  rs 10%nat = Some f ->
  uuidv7 st tp rs heap =
  Returned (layout {| sequence_counter := seeded_counter f;
                      previous_timestamp := now_ms tp |} (random_tail f 3 7))
           {| sequence_counter := seeded_counter f;
              previous_timestamp := now_ms tp |}.
Proof.
  intros Hlt Hrs. unfold uuidv7, pg_strong_random.
  apply Z.ltb_lt in Hlt. rewrite Hlt. change (UUID_LEN - 6)%nat with 10%nat.
  rewrite Hrs.
  set (x0 := byte_val (f 0%nat)). set (x1 := byte_val (f 1%nat)).
  set (x2 := byte_val (f 2%nat)).
  assert (H0 : is_byte x0) by apply byte_val_range.
  assert (H1 : is_byte x1) by apply byte_val_range.
  assert (H2 : is_byte x2) by apply byte_val_range.
  f_equal.
  - unfold layout; cbn [sequence_counter previous_timestamp].
    rewrite counter_bytes_seeded. fold x0 x1 x2.
    change (set_version_variant _) with
      (time_bytes (now_ms tp) ++
       [uchar (Z.lor (Z.land (uchar (Z.land x0 0xf7)) 0x0f) 0x70); x1;
        uchar (Z.lor (Z.land x2 0x3f) 0x80)] ++ random_tail f 3 7).
    rewrite (version_byte _ (uchar_range _)), (variant_byte _ H2).
    rewrite (clear_bit3_byte _ H0). reflexivity.
  - f_equal.
    rewrite (read_counter_bytes _ (uchar (Z.land x0 0xf7)) x1 x2);
      [|reflexivity|reflexivity|reflexivity|apply uchar_range|assumption|assumption].
    rewrite (clear_bit3_byte _ H0). reflexivity.
Qed.

Lemma uuidv7_forward_raised st tp rs heap :
  previous_timestamp st < now_ms tp ->
  rs 10%nat = None ->
  uuidv7 st tp rs heap = Raised st.
Proof.
  intros Hlt Hrs. unfold uuidv7, pg_strong_random.
  apply Z.ltb_lt in Hlt. rewrite Hlt. change (UUID_LEN - 6)%nat with 10%nat.
  rewrite Hrs. reflexivity.
Qed.

Lemma uuidv7_same_tick st tp rs heap f :
  now_ms tp <= previous_timestamp st ->
  rs 7%nat = Some f ->
  uuidv7 st tp rs heap = Returned (layout (bump st) (random_tail f 0 7)) (bump st).
Proof.
  intros Hle Hrs. unfold uuidv7, pg_strong_random.
  apply Z.ltb_ge in Hle. rewrite Hle. change (UUID_LEN - 9)%nat with 7%nat.
  rewrite Hrs. f_equal.
  unfold layout. rewrite <- (counter_bytes_written _ (bump_counter_range st)).
  reflexivity.
Qed.

Lemma uuidv7_same_tick_raised st tp rs heap :
  now_ms tp <= previous_timestamp st ->
  rs 7%nat = None ->
  uuidv7 st tp rs heap = Raised (bump st).
Proof.
  intros Hle Hrs. unfold uuidv7, pg_strong_random.
  apply Z.ltb_ge in Hle. rewrite Hle. change (UUID_LEN - 9)%nat with 7%nat.
  rewrite Hrs. reflexivity.
Qed.

(** Every returned identifier has the layout of the static variables the
    call leaves, followed by seven random bytes. *)
Lemma Forall_random_tail f from len : Forall is_byte (random_tail f from len).
Proof.
  unfold random_tail. induction (seq from len) as [|i l IH]; cbn [map].
  - constructor.
  - constructor; [apply byte_val_range | exact IH].
Qed.

Lemma uuidv7_returned st tp rs heap u st' :
  uuidv7 st tp rs heap = Returned u st' ->
  exists tail,
    u = layout st' tail /\ length tail = 7%nat /\ Forall is_byte tail /\
    0 <= sequence_counter st' < 2 ^ 18 /\
    ((previous_timestamp st < now_ms tp /\ previous_timestamp st' = now_ms tp)
     \/ (now_ms tp <= previous_timestamp st /\ st' = bump st)).
Proof.
  intros Hcall.
  destruct (Z.lt_ge_cases (previous_timestamp st) (now_ms tp)) as [Hlt|Hge].
  - destruct (rs 10%nat) as [f|] eqn:Hrs.
    + rewrite (uuidv7_forward _ _ _ _ f Hlt Hrs) in Hcall.
      injection Hcall as <- <-. exists (random_tail f 3 7).
      cbn [sequence_counter previous_timestamp].
      pose proof (seeded_counter_range f).
      repeat split; auto using Forall_random_tail; lia.
    + rewrite (uuidv7_forward_raised _ _ _ _ Hlt Hrs) in Hcall. discriminate.
  - destruct (rs 7%nat) as [f|] eqn:Hrs.
    + rewrite (uuidv7_same_tick _ _ _ _ f Hge Hrs) in Hcall.
      injection Hcall as <- <-. exists (random_tail f 0 7).
      pose proof (bump_counter_range st).
      repeat split; auto using Forall_random_tail; lia.
    + rewrite (uuidv7_same_tick_raised _ _ _ _ Hge Hrs) in Hcall. discriminate.
Qed.

(** What an aborted call leaves in the static variables. *)
Lemma uuidv7_raised st tp rs heap st' :
  uuidv7 st tp rs heap = Raised st' ->
  (previous_timestamp st < now_ms tp /\ rs 10%nat = None /\ st' = st)
  \/ (now_ms tp <= previous_timestamp st /\ rs 7%nat = None /\ st' = bump st).
Proof.
  intros Hcall.
  destruct (Z.lt_ge_cases (previous_timestamp st) (now_ms tp)) as [Hlt|Hge].
  - destruct (rs 10%nat) as [f|] eqn:Hrs.
    + rewrite (uuidv7_forward _ _ _ _ f Hlt Hrs) in Hcall. discriminate.
    + rewrite (uuidv7_forward_raised _ _ _ _ Hlt Hrs) in Hcall.
      injection Hcall as <-. auto.
  - destruct (rs 7%nat) as [f|] eqn:Hrs.
    + rewrite (uuidv7_same_tick _ _ _ _ f Hge Hrs) in Hcall. discriminate.
    + rewrite (uuidv7_same_tick_raised _ _ _ _ Hge Hrs) in Hcall.
      injection Hcall as <-. auto.
Qed.

(** ** Fields of a laid-out identifier *)

Lemma decoded_timestamp_layout st tail :
  decoded_timestamp (layout st tail) = previous_timestamp st mod 2 ^ 48.
Proof.
  unfold decoded_timestamp, layout.
  change (take 6 _) with (time_bytes (previous_timestamp st)).
  apply be_value_time_bytes.
Qed.

Lemma decoded_counter_layout st tail :
  0 <= sequence_counter st < 2 ^ 18 ->
  decoded_counter (layout st tail) = sequence_counter st.
Proof.
  intros Hsc. unfold decoded_counter, layout.
  change ((_ ++ _) !!! 6%nat) with (0x70 + sequence_counter st / 2 ^ 14).
  change ((_ ++ _) !!! 7%nat) with ((sequence_counter st / 2 ^ 6) mod 2 ^ 8).
  change ((_ ++ _) !!! 8%nat) with (0x80 + sequence_counter st mod 2 ^ 6).
  Z.div_mod_to_equations; lia.
Qed.

Lemma version_bits_layout st tail :
  0 <= sequence_counter st < 2 ^ 18 -> version_bits (layout st tail) = 7.
Proof.
  intros Hsc. unfold version_bits, layout.
  change ((_ ++ _) !!! 6%nat) with (0x70 + sequence_counter st / 2 ^ 14).
  apply high_nibble_of_version. Z.div_mod_to_equations; lia.
Qed.

Lemma variant_bits_layout st tail : variant_bits (layout st tail) = 2.
Proof.
  unfold variant_bits, layout.
  change ((_ ++ _) !!! 8%nat) with (0x80 + sequence_counter st mod 2 ^ 6).
  apply top_bits_of_variant. apply Z.mod_pos_bound. lia.
Qed.

(** ** The identifier as a 128-bit integer *)

Lemma be_value_acc (l : list Z) acc :
  foldl (fun a b => a * 256 + b) acc l
  = acc * 256 ^ Z.of_nat (length l) + be_value l.
Proof.
  unfold be_value. revert acc. induction l as [|b l IH]; intros acc; cbn [foldl length].
  - change (256 ^ Z.of_nat 0) with 1. lia.
  - rewrite IH, (IH (0 * 256 + b)).
    rewrite Nat2Z.inj_succ, Z.pow_succ_r by lia. ring.
Qed.

Lemma be_value_app (l1 l2 : list Z) :
  be_value (l1 ++ l2) = be_value l1 * 256 ^ Z.of_nat (length l2) + be_value l2.
Proof.
  unfold be_value at 1. rewrite foldl_app. apply be_value_acc.
Qed.

Lemma be_value_range (l : list Z) :
  Forall is_byte l -> 0 <= be_value l < 256 ^ Z.of_nat (length l).
Proof.
  induction 1 as [|b l Hb _ IH].
  - cbn. lia.
  - change (b :: l) with ([b] ++ l). rewrite be_value_app.
    cbn [length app]. rewrite Nat2Z.inj_succ, Z.pow_succ_r by lia.
    change (be_value [b]) with (0 * 256 + b). unfold is_byte in Hb. nia.
Qed.

Lemma be_value_counter_bytes sc : be_value (counter_bytes sc) = counter_field sc.
Proof. unfold be_value, counter_bytes, counter_field; cbn [foldl]. ring. Qed.

Lemma uuid_to_Z_layout st tail :
  length tail = 7%nat ->
  uuid_to_Z (layout st tail) = sort_key st + be_value tail.
Proof.
  intros Hlen. unfold uuid_to_Z, layout, sort_key.
  rewrite !be_value_app, be_value_time_bytes, be_value_counter_bytes.
  rewrite length_app, Hlen.
  change (256 ^ Z.of_nat (length (counter_bytes (sequence_counter st)) + 7)) with (2 ^ 80).
  change (256 ^ Z.of_nat 7) with (2 ^ 56). ring.
Qed.

Lemma counter_field_mono a b :
  0 <= a -> a < b -> b < 2 ^ 18 ->
  counter_field a + 1 <= counter_field b.
Proof.
  intros Ha Hab Hb. unfold counter_field. Z.div_mod_to_equations; lia.
Qed.

Lemma counter_field_range a :
  0 <= a < 2 ^ 18 -> 0 <= counter_field a < 2 ^ 24.
Proof. intros Ha. unfold counter_field. Z.div_mod_to_equations; lia. Qed.

Lemma sort_key_lt s1 s2 :
  state_ok s1 -> state_ok s2 -> state_lt s1 s2 ->
  sort_key s1 + 2 ^ 56 <= sort_key s2.
Proof.
  intros [Hc1 Ht1] [Hc2 Ht2] Hlt. unfold sort_key.
  rewrite !Z.mod_small by lia.
  pose proof (counter_field_range _ Hc1). pose proof (counter_field_range _ Hc2).
  destruct Hlt as [Hlt|[Heq Hlt]].
  - lia.
  - rewrite Heq. pose proof (counter_field_mono _ _ (proj1 Hc1) Hlt (proj2 Hc2)). lia.
Qed.

(** ** One call moves the static variables forward *)

Lemma bump_lt st :
  state_ok st -> previous_timestamp (bump st) < 2 ^ 48 -> state_lt st (bump st).
Proof.
  intros [Hc Ht]. unfold bump, state_lt, uint32, uint64.
  rewrite (Z.mod_small (sequence_counter st + 1)) by lia.
  destruct (Z.ltb_spec 0x3ffff (sequence_counter st + 1));
    cbn [sequence_counter previous_timestamp]; intros Hb.
  - left. rewrite Z.mod_small; lia.
  - right. lia.
Qed.

Lemma bump_timestamp_nonneg st :
  0 <= previous_timestamp st -> 0 <= previous_timestamp (bump st).
Proof.
  intros Ht. unfold bump, uint64.
  destruct (0x3ffff <? uint32 (sequence_counter st + 1));
    cbn [previous_timestamp]; [|exact Ht].
  apply Z.mod_pos_bound. lia.
Qed.

(** After a call that changed the static variables they are well formed,
    as long as the time stays within 48 bits. *)
Lemma returned_state_ok st tp rs heap u st' :
  uuidv7 st tp rs heap = Returned u st' ->
  previous_timestamp st' < 2 ^ 48 -> state_ok st'.
Proof.
  intros Hcall Hlt.
  destruct (uuidv7_returned _ _ _ _ _ _ Hcall) as (tail & _ & _ & _ & Hsc & Hbr).
  split; [exact Hsc|]. split; [|exact Hlt].
  pose proof (now_ms_range tp).
  destruct Hbr as [[_ ->]|[Hge ->]]; [lia|].
  apply bump_timestamp_nonneg. lia.
Qed.

Lemma returned_state_lt st tp rs heap u st' :
  state_ok st ->
  uuidv7 st tp rs heap = Returned u st' ->
  previous_timestamp st' < 2 ^ 48 -> state_lt st st'.
Proof.
  intros Hok Hcall Hlt.
  destruct (uuidv7_returned _ _ _ _ _ _ Hcall) as (tail & _ & _ & _ & Hsc & Hbr).
  destruct Hbr as [[Hadv Heq]|[Hge ->]].
  - left. lia.
  - apply bump_lt; assumption.
Qed.

Lemma returned_value_bounds st tp rs heap u st' :
  uuidv7 st tp rs heap = Returned u st' ->
  sort_key st' <= uuid_to_Z u < sort_key st' + 2 ^ 56.
Proof.
  intros Hcall.
  destruct (uuidv7_returned _ _ _ _ _ _ Hcall) as (tail & -> & Hlen & Hb & _ & _).
  rewrite (uuid_to_Z_layout _ _ Hlen).
  pose proof (be_value_range _ Hb) as Hr. rewrite Hlen in Hr.
  change (256 ^ Z.of_nat 7) with (2 ^ 56) in Hr. lia.
Qed.

Lemma calls_cons st c cs :
  calls st (c :: cs)
  = uuidv7 st (c_clock c) (c_random c) (c_heap c)
    :: calls (state_after (uuidv7 st (c_clock c) (c_random c) (c_heap c))) cs.
Proof. reflexivity. Qed.

(** From well-formed static variables, the identifiers of a series of calls
    come out in increasing order, all of them above the starting point. *)
Lemma calls_sorted_from_ok cs : forall st,
  state_ok st ->
  Forall within_48_bits (calls st cs) ->
  StronglySorted Z.lt (map uuid_to_Z (omap returned (calls st cs)))
  /\ Forall (fun x => sort_key st + 2 ^ 56 <= x)
            (map uuid_to_Z (omap returned (calls st cs))).
Proof.
  induction cs as [|c cs IH]; intros st Hok Hall.
  - split; constructor.
  - rewrite calls_cons in *. apply Forall_cons_1 in Hall as [H1 Hall].
    destruct (uuidv7 st (c_clock c) (c_random c) (c_heap c)) as [u st'|st'] eqn:Hcall;
      unfold within_48_bits in H1; cbn [state_after omap list_omap returned] in *.
    + pose proof (returned_state_ok _ _ _ _ _ _ Hcall H1) as Hok'.
      pose proof (returned_state_lt _ _ _ _ _ _ Hok Hcall H1) as Hlt.
      pose proof (returned_value_bounds _ _ _ _ _ _ Hcall) as Hu.
      pose proof (sort_key_lt _ _ Hok Hok' Hlt) as Hkey.
      destruct (IH st' Hok' Hall) as [Hs Hb].
      cbn [map]. split.
      * constructor; [exact Hs|].
        eapply Forall_impl; [|exact Hb]. cbn beta. intros x Hx. lia.
      * constructor; [lia|].
        eapply Forall_impl; [|exact Hb]. cbn beta. intros x Hx. lia.
    + destruct (uuidv7_raised _ _ _ _ _ Hcall) as [(_ & _ & ->)|(Hge & _ & ->)].
      * apply IH; assumption.
      * assert (Hok' : state_ok (bump st)).
        { split; [apply bump_counter_range|]. split; [|exact H1].
          apply bump_timestamp_nonneg. apply Hok. }
        pose proof (sort_key_lt _ _ Hok Hok' (bump_lt _ Hok H1)) as Hkey.
        destruct (IH _ Hok' Hall) as [Hs Hb]. split; [exact Hs|].
        eapply Forall_impl; [|exact Hb]. cbn beta. intros x Hx. lia.
Qed.

Lemma calls_sorted cs : forall st,
  Forall within_48_bits (calls st cs) ->
  StronglySorted Z.lt (map uuid_to_Z (omap returned (calls st cs))).
Proof.
  induction cs as [|c cs IH]; intros st Hall.
  - constructor.
  - rewrite calls_cons in *. apply Forall_cons_1 in Hall as [H1 Hall].
    destruct (uuidv7 st (c_clock c) (c_random c) (c_heap c)) as [u st'|st'] eqn:Hcall;
      unfold within_48_bits in H1; cbn [state_after omap list_omap returned] in *.
    + pose proof (returned_state_ok _ _ _ _ _ _ Hcall H1) as Hok'.
      pose proof (returned_value_bounds _ _ _ _ _ _ Hcall) as Hu.
      destruct (calls_sorted_from_ok cs st' Hok' Hall) as [Hs Hb].
      cbn [map]. constructor; [exact Hs|].
      eapply Forall_impl; [|exact Hb]. cbn beta. intros x Hx. lia.
    + destruct (uuidv7_raised _ _ _ _ _ Hcall) as [(_ & _ & ->)|(Hge & _ & ->)].
      * apply IH; assumption.
      * assert (Hok' : state_ok (bump st)).
        { split; [apply bump_counter_range|]. split; [|exact H1].
          apply bump_timestamp_nonneg. pose proof (now_ms_range (c_clock c)). lia. }
        apply (calls_sorted_from_ok cs _ Hok' Hall).
Qed.

(** ** Failure of the random source *)

(** C1, as stated, fails: a call on which time did not advance and whose
    random request fails leaves the counter incremented. *)
Lemma failed_same_tick_call_keeps_increment :
  uuidv7 {| sequence_counter := 5; previous_timestamp := 1000 |}
         (clock_at 1000) failing_source (fun _ => Byte.x00)
  = Raised {| sequence_counter := 6; previous_timestamp := 1000 |}
  /\ {| sequence_counter := 6; previous_timestamp := 1000 |}
     <> {| sequence_counter := 5; previous_timestamp := 1000 |}.
Proof. split; [vm_compute; reflexivity | discriminate]. Qed.

(** C1, amended: when the random request fails the call aborts.  On a
    forward tick both static variables are as before the call.  On a call
    on which time did not advance they keep the counter step taken before
    the request: the counter plus one, or counter zero and the timestamp
    plus one when the step passes 262143.  A call aborts in no other
    way. *)
Theorem failed_call_state st tp rs heap :
  (previous_timestamp st < now_ms tp -> rs 10%nat = None ->
   uuidv7 st tp rs heap = Raised st)
  /\ (now_ms tp <= previous_timestamp st -> rs 7%nat = None ->
      uuidv7 st tp rs heap
      = Raised (if 262143 <? uint32 (sequence_counter st + 1)
                then {| sequence_counter := 0;
                        previous_timestamp := uint64 (previous_timestamp st + 1) |}
                else {| sequence_counter := uint32 (sequence_counter st + 1);
                        previous_timestamp := previous_timestamp st |}))
  /\ (forall st', uuidv7 st tp rs heap = Raised st' ->
        (previous_timestamp st < now_ms tp /\ rs 10%nat = None)
        \/ (now_ms tp <= previous_timestamp st /\ rs 7%nat = None)).
Proof.
  split; [|split].
  - apply uuidv7_forward_raised.
  - intros Hge Hrs. rewrite (uuidv7_same_tick_raised _ _ _ _ Hge Hrs).
    reflexivity.
  - intros st' Hcall.
    destruct (uuidv7_raised _ _ _ _ _ Hcall) as [(Hlt & Hrs & _)|(Hge & Hrs & _)];
      [left | right]; split; assumption.
Qed.

Lemma failed_call_state_witness :
  now_ms (clock_at 1000)
    <= previous_timestamp {| sequence_counter := 5; previous_timestamp := 1000 |}
  /\ failing_source 7%nat = None
  /\ uuidv7 {| sequence_counter := 5; previous_timestamp := 1000 |}
            (clock_at 1000) failing_source (fun _ => Byte.x00)
     = Raised {| sequence_counter := 6; previous_timestamp := 1000 |}.
Proof.
  assert (Hge : now_ms (clock_at 1000)
                <= previous_timestamp
                     {| sequence_counter := 5; previous_timestamp := 1000 |})
    by (vm_compute; discriminate).
  split; [exact Hge|]. split; [reflexivity|].
  exact (proj1 (proj2 (failed_call_state _ _ failing_source (fun _ => Byte.x00)))
           Hge eq_refl).
Defined.

(** ** Version and variant *)

(** C3: every returned identifier has high nibble 0111 in byte 6 and top
    bits 10 in byte 8. *)
Theorem version_variant_fixed st tp rs heap u st' :
  uuidv7 st tp rs heap = Returned u st' ->
  version_bits u = 7 /\ variant_bits u = 2.
Proof.
  intros Hcall.
  destruct (uuidv7_returned _ _ _ _ _ _ Hcall) as (tail & -> & _ & _ & Hsc & _).
  split; [apply version_bits_layout; exact Hsc | apply variant_bits_layout].
Qed.

Lemma version_variant_fixed_witness :
  uuidv7 {| sequence_counter := 5; previous_timestamp := 1000 |}
         (clock_at 1000) (constant_source Byte.xff) (fun _ => Byte.x00)
  = Returned [0; 0; 0; 0; 3; 232; 0x70; 0; 0x86; 255; 255; 255; 255; 255; 255; 255]
             {| sequence_counter := 6; previous_timestamp := 1000 |}
  /\ version_bits [0; 0; 0; 0; 3; 232; 0x70; 0; 0x86; 255; 255; 255; 255; 255; 255; 255] = 7
  /\ variant_bits [0; 0; 0; 0; 3; 232; 0x70; 0; 0x86; 255; 255; 255; 255; 255; 255; 255] = 2.
Proof.
  assert (Hcall : uuidv7 {| sequence_counter := 5; previous_timestamp := 1000 |}
                    (clock_at 1000) (constant_source Byte.xff) (fun _ => Byte.x00)
    = Returned [0; 0; 0; 0; 3; 232; 0x70; 0; 0x86; 255; 255; 255; 255; 255; 255; 255]
               {| sequence_counter := 6; previous_timestamp := 1000 |})
    by (vm_compute; reflexivity).
  split; [exact Hcall|]. exact (version_variant_fixed _ _ _ _ _ _ Hcall).
Defined.

(** ** The identifier and the static variables agree *)

Lemma fixup_keeps_fields data :
  length data = 16%nat -> Forall is_byte data ->
  decoded_timestamp (set_version_variant data) = decoded_timestamp data
  /\ decoded_counter (set_version_variant data) = decoded_counter data.
Proof.
  intros Hlen Hb.
  destruct data as [|b0 [|b1 [|b2 [|b3 [|b4 [|b5 [|b6 [|b7 [|b8 [|b9 [|b10
    [|b11 [|b12 [|b13 [|b14 [|b15 [|]]]]]]]]]]]]]]]]]; try discriminate.
  split; [reflexivity|].
  unfold decoded_counter, set_version_variant.
  repeat match goal with H : Forall _ (_ :: _) |- _ => apply Forall_cons_1 in H as [? H] end.
  change ((<[8%nat:=?v]> _) !!! 6%nat) with (uchar (Z.lor (Z.land b6 0x0f) 0x70)).
  change ((<[8%nat:=?v]> _) !!! 7%nat) with b7.
  change ((<[8%nat:=_]> _) !!! 8%nat) with (uchar (Z.lor (Z.land b8 0x3f) 0x80)).
  change ((_ :: _) !!! 6%nat) with b6. change ((_ :: _) !!! 7%nat) with b7.
  change ((_ :: _) !!! 8%nat) with b8.
  rewrite version_byte, variant_byte by assumption.
  Z.div_mod_to_equations; lia.
Qed.

(** C9: the timestamp and counter read from a returned identifier are the
    static variables the call leaves (the timestamp modulo 2^48), in both
    branches; setting version and variant changes neither field of a
    16-byte buffer. *)
Theorem identifier_matches_state st tp rs heap u st' :
  uuidv7 st tp rs heap = Returned u st' ->
  decoded_timestamp u = previous_timestamp st' mod 2 ^ 48
  /\ decoded_counter u = sequence_counter st'
  /\ (forall data, length data = 16%nat -> Forall is_byte data ->
        decoded_timestamp (set_version_variant data) = decoded_timestamp data
        /\ decoded_counter (set_version_variant data) = decoded_counter data).
Proof.
  intros Hcall.
  destruct (uuidv7_returned _ _ _ _ _ _ Hcall) as (tail & -> & _ & _ & Hsc & _).
  split; [apply decoded_timestamp_layout|].
  split; [apply decoded_counter_layout; exact Hsc|].
  exact fixup_keeps_fields.
Qed.

Lemma identifier_matches_state_witness :
  uuidv7 {| sequence_counter := 5; previous_timestamp := 1000 |}
         (clock_at 1000) (constant_source Byte.xff) (fun _ => Byte.x00)
  = Returned [0; 0; 0; 0; 3; 232; 0x70; 0; 0x86; 255; 255; 255; 255; 255; 255; 255]
             {| sequence_counter := 6; previous_timestamp := 1000 |}
  /\ decoded_timestamp
       [0; 0; 0; 0; 3; 232; 0x70; 0; 0x86; 255; 255; 255; 255; 255; 255; 255]
     = 1000 mod 2 ^ 48
  /\ decoded_counter
       [0; 0; 0; 0; 3; 232; 0x70; 0; 0x86; 255; 255; 255; 255; 255; 255; 255]
     = 6.
Proof.
  assert (Hcall : uuidv7 {| sequence_counter := 5; previous_timestamp := 1000 |}
                    (clock_at 1000) (constant_source Byte.xff) (fun _ => Byte.x00)
    = Returned [0; 0; 0; 0; 3; 232; 0x70; 0; 0x86; 255; 255; 255; 255; 255; 255; 255]
               {| sequence_counter := 6; previous_timestamp := 1000 |})
    by (vm_compute; reflexivity).
  split; [exact Hcall|].
  destruct (identifier_matches_state _ _ _ _ _ _ Hcall) as (Ht & Hc & _).
  split; [exact Ht | exact Hc].
Defined.

(** ** The time part *)

Lemma mod_64_mod_48 x : x mod 2 ^ 64 mod 2 ^ 48 = x mod 2 ^ 48.
Proof. Z.div_mod_to_equations; lia. Qed.



(** ** A clock that stands still or goes back *)

(** C4, as stated, fails: the time part has 48 bits, so a stored timestamp
    of 2^48 + 5 with the clock back at 5 gives an identifier whose
    timestamp is neither the stored one nor its successor, but 5, the
    reading of the clock. *)
Lemma clock_regression_beyond_48_bits :
  exists u st',
    now_ms (clock_at 5) <= 2 ^ 48 + 5
    /\ uuidv7 {| sequence_counter := 0; previous_timestamp := 2 ^ 48 + 5 |}
              (clock_at 5) (constant_source Byte.x00) (fun _ => Byte.x00)
       = Returned u st'
    /\ decoded_timestamp u = now_ms (clock_at 5)
    /\ decoded_timestamp u <> 2 ^ 48 + 5
    /\ decoded_timestamp u <> 2 ^ 48 + 5 + 1.
Proof.
  eexists _, _. split; [vm_compute; discriminate|].
  split; [vm_compute; reflexivity|].
  split; [vm_compute; reflexivity|].
  split; vm_compute; discriminate.
Qed.

(** C4, amended: when the clock reads no more than the stored timestamp,
    the time part of the identifier is the stored timestamp modulo 2^48, or
    its successor modulo 2^48 when the counter overflows; for a stored
    timestamp below 2^48 - 1 that is the stored timestamp, or its
    successor, itself, and never less than the reading of the clock. *)
Theorem clock_regression st tp rs heap u st' :
  now_ms tp <= previous_timestamp st ->
  uuidv7 st tp rs heap = Returned u st' ->
  decoded_timestamp u
  = (if counter_overflows st then previous_timestamp st + 1
     else previous_timestamp st) mod 2 ^ 48
  /\ (previous_timestamp st < 2 ^ 48 - 1 ->
      decoded_timestamp u
      = (if counter_overflows st then previous_timestamp st + 1
         else previous_timestamp st)
      /\ now_ms tp <= decoded_timestamp u).
Proof.
  intros Hge Hcall.
  destruct (uuidv7_returned _ _ _ _ _ _ Hcall) as (tail & -> & _ & _ & _ & Hbr).
  destruct Hbr as [[Hlt _]|[_ ->]]; [lia|].
  rewrite decoded_timestamp_layout.
  pose proof (now_ms_range tp) as Hnow.
  unfold bump, counter_overflows.
  destruct (0x3ffff <? uint32 (sequence_counter st + 1));
    cbn [previous_timestamp]; unfold uint64; rewrite ?mod_64_mod_48.
  - split; [reflexivity|]. intros Hsmall. rewrite Z.mod_small by lia. lia.
  - split; [reflexivity|]. intros Hsmall. rewrite Z.mod_small by lia. lia.
Qed.

Lemma clock_regression_witness :
  now_ms (clock_at 900) <= 1000
  /\ uuidv7 {| sequence_counter := 5; previous_timestamp := 1000 |}
            (clock_at 900) (constant_source Byte.xff) (fun _ => Byte.x00)
     = Returned [0; 0; 0; 0; 3; 232; 0x70; 0; 0x86; 255; 255; 255; 255; 255; 255; 255]
                {| sequence_counter := 6; previous_timestamp := 1000 |}
  /\ decoded_timestamp
       [0; 0; 0; 0; 3; 232; 0x70; 0; 0x86; 255; 255; 255; 255; 255; 255; 255]
     = 1000 mod 2 ^ 48.
Proof.
  assert (Hge : now_ms (clock_at 900)
                <= previous_timestamp {| sequence_counter := 5; previous_timestamp := 1000 |})
    by (vm_compute; discriminate).
  assert (Hcall : uuidv7 {| sequence_counter := 5; previous_timestamp := 1000 |}
                    (clock_at 900) (constant_source Byte.xff) (fun _ => Byte.x00)
    = Returned [0; 0; 0; 0; 3; 232; 0x70; 0; 0x86; 255; 255; 255; 255; 255; 255; 255]
               {| sequence_counter := 6; previous_timestamp := 1000 |})
    by (vm_compute; reflexivity).
  split; [exact Hge|]. split; [exact Hcall|].
  exact (proj1 (clock_regression _ _ _ _ _ _ Hge Hcall)).
Defined.

(** ** Counter overflow *)

(** C5, as stated, fails at the last 48-bit timestamp: the successor of
    2^48 - 1 does not fit the time part, which reads 0. *)
Lemma overflow_at_last_48_bit_timestamp :
  exists u st',
    now_ms (clock_at 0) <= 2 ^ 48 - 1
    /\ uuidv7 {| sequence_counter := 262143; previous_timestamp := 2 ^ 48 - 1 |}
              (clock_at 0) (constant_source Byte.x00) (fun _ => Byte.x00)
       = Returned u st'
    /\ decoded_timestamp u = 0
    /\ decoded_timestamp u <> (2 ^ 48 - 1) + 1.
Proof.
  eexists _, _. split; [vm_compute; discriminate|].
  split; [vm_compute; reflexivity|].
  split; [vm_compute; reflexivity | vm_compute; discriminate].
Qed.

Lemma state_after_counter_range st tp rs heap :
  0 <= sequence_counter st <= 262143 ->
  0 <= sequence_counter (state_after (uuidv7 st tp rs heap)) <= 262143.
Proof.
  intros Hsc. destruct (uuidv7 st tp rs heap) as [u st'|st'] eqn:Hcall; cbn [state_after].
  - destruct (uuidv7_returned _ _ _ _ _ _ Hcall) as (tail & _ & _ & _ & H & _). lia.
  - destruct (uuidv7_raised _ _ _ _ _ Hcall) as [(_ & _ & ->)|(_ & _ & ->)]; [exact Hsc|].
    pose proof (bump_counter_range st). lia.
Qed.

Lemma calls_counter_range cs : forall st,
  0 <= sequence_counter st <= 262143 ->
  Forall (fun o => 0 <= sequence_counter (state_after o) <= 262143) (calls st cs).
Proof.
  induction cs as [|c cs IH]; intros st Hsc; [constructor|].
  rewrite calls_cons.
  pose proof (state_after_counter_range st (c_clock c) (c_random c) (c_heap c) Hsc).
  constructor; [assumption | apply IH; assumption].
Qed.

(** C5, amended: with the counter at 262143 and a clock that has not passed
    the stored timestamp, a returned identifier has counter 0 and time part
    (previous_timestamp + 1) modulo 2^48, which is previous_timestamp + 1
    itself for a stored timestamp below 2^48 - 1, whatever the clock reads;
    and a counter within [0, 262143] is within [0, 262143] after every
    call, returned or aborted, hence after every call of a series that
    starts from the initial static variables. *)
Theorem counter_overflow st tp rs heap :
  (sequence_counter st = 262143 ->
   now_ms tp <= previous_timestamp st ->
   forall u st', uuidv7 st tp rs heap = Returned u st' ->
     decoded_counter u = 0
     /\ sequence_counter st' = 0
     /\ decoded_timestamp u = (previous_timestamp st + 1) mod 2 ^ 48
     /\ (previous_timestamp st < 2 ^ 48 - 1 ->
         decoded_timestamp u = previous_timestamp st + 1))
  /\ (0 <= sequence_counter st <= 262143 ->
      0 <= sequence_counter (state_after (uuidv7 st tp rs heap)) <= 262143)
  /\ (forall cs,
        Forall (fun o => 0 <= sequence_counter (state_after o) <= 262143)
               (calls initial_state cs)).
Proof.
  split; [|split; [apply state_after_counter_range|]];
    [|intros cs; apply calls_counter_range; cbn; lia].
  intros Hmax Hge u st' Hcall.
  destruct (uuidv7_returned _ _ _ _ _ _ Hcall) as (tail & -> & _ & _ & Hsc & Hbr).
  destruct Hbr as [[Hlt _]|[_ Hst]]; [lia|].
  assert (Hb : bump st = {| sequence_counter := 0;
                            previous_timestamp := uint64 (previous_timestamp st + 1) |}).
  { unfold bump. rewrite Hmax. reflexivity. }
  rewrite Hb in Hst. subst st'.
  rewrite decoded_counter_layout by (cbn [sequence_counter]; lia).
  rewrite decoded_timestamp_layout. cbn [sequence_counter previous_timestamp].
  unfold uint64. rewrite mod_64_mod_48.
  repeat split. intros Hsmall. apply Z.mod_small.
  pose proof (now_ms_range tp). lia.
Qed.

Lemma counter_overflow_witness :
  262143 = 262143
  /\ now_ms (clock_at 900) <= 1000
  /\ uuidv7 {| sequence_counter := 262143; previous_timestamp := 1000 |}
            (clock_at 900) (constant_source Byte.xff) (fun _ => Byte.x00)
     = Returned [0; 0; 0; 0; 3; 233; 0x70; 0; 0x80; 255; 255; 255; 255; 255; 255; 255]
                {| sequence_counter := 0; previous_timestamp := 1001 |}
  /\ decoded_counter
       [0; 0; 0; 0; 3; 233; 0x70; 0; 0x80; 255; 255; 255; 255; 255; 255; 255] = 0
  /\ decoded_timestamp
       [0; 0; 0; 0; 3; 233; 0x70; 0; 0x80; 255; 255; 255; 255; 255; 255; 255]
     = 1000 + 1.
Proof.
  assert (Hge : now_ms (clock_at 900)
                <= previous_timestamp
                     {| sequence_counter := 262143; previous_timestamp := 1000 |})
    by (vm_compute; discriminate).
  assert (Hcall : uuidv7 {| sequence_counter := 262143; previous_timestamp := 1000 |}
                    (clock_at 900) (constant_source Byte.xff) (fun _ => Byte.x00)
    = Returned [0; 0; 0; 0; 3; 233; 0x70; 0; 0x80; 255; 255; 255; 255; 255; 255; 255]
               {| sequence_counter := 0; previous_timestamp := 1001 |})
    by (vm_compute; reflexivity).
  split; [reflexivity|]. split; [exact Hge|]. split; [exact Hcall|].
  destruct (proj1 (counter_overflow
                     {| sequence_counter := 262143; previous_timestamp := 1000 |}
                     (clock_at 900) (constant_source Byte.xff) (fun _ => Byte.x00))
                  eq_refl Hge _ _ Hcall)
    as (Hc & _ & _ & Ht).
  split; [exact Hc|]. apply Ht. vm_compute. reflexivity.
Defined.

(** ** Monotonicity *)

Lemma sorted_map_adjacent {A} (f : A -> Z) (l : list A) : forall i x y,
  StronglySorted Z.lt (map f l) ->
  l !! i = Some x -> l !! S i = Some y -> f x < f y.
Proof.
  induction l as [|a l IH]; intros i x y Hs Hx Hy; [discriminate|].
  cbn [map] in Hs. apply StronglySorted_inv in Hs as [Hs Ha].
  destruct i as [|i]; cbn in Hx, Hy.
  - injection Hx as <-. rewrite Forall_forall in Ha. apply Ha.
    apply in_map. apply list_elem_of_In. eapply list_elem_of_lookup_2. exact Hy.
  - eapply IH; eassumption.
Qed.

(** C2, as stated, fails: the clock passing from 2^48 - 1 to 2^48 makes the
    time part wrap to zero, and the second identifier is the smaller. *)
Lemma monotonicity_fails_beyond_48_bits :
  exists u v,
    omap returned
      (calls initial_state
         [ {| c_clock := clock_at (2 ^ 48 - 1);
              c_random := constant_source Byte.x00; c_heap := fun _ => Byte.x00 |};
           {| c_clock := clock_at (2 ^ 48);
              c_random := constant_source Byte.x00; c_heap := fun _ => Byte.x00 |} ])
    = [u; v]
    /\ uuid_to_Z v < uuid_to_Z u.
Proof. eexists _, _. split; vm_compute; reflexivity. Qed.

(** C2, amended: in a series of calls on one backend during which the
    stored timestamp stays below 2^48, the returned identifiers, read as
    128-bit big-endian integers, are strictly increasing in call order,
    whatever the clock readings and the random bytes. *)
Theorem monotonicity st cs :
  Forall (fun o => previous_timestamp (state_after o) < 2 ^ 48) (calls st cs) ->
  forall i u v,
    omap returned (calls st cs) !! i = Some u ->
    omap returned (calls st cs) !! S i = Some v ->
    uuid_to_Z u < uuid_to_Z v.
Proof.
  intros Hall i u v Hu Hv.
  eapply sorted_map_adjacent; [|exact Hu|exact Hv].
  apply calls_sorted. exact Hall.
Qed.

Lemma monotonicity_witness :
  Forall (fun o => previous_timestamp (state_after o) < 2 ^ 48)
    (calls initial_state
       [ {| c_clock := clock_at 1000;
            c_random := constant_source Byte.xff; c_heap := fun _ => Byte.x00 |};
         {| c_clock := clock_at 900;
            c_random := constant_source Byte.x00; c_heap := fun _ => Byte.x00 |} ])
  /\ uuid_to_Z [0; 0; 0; 0; 3; 232; 0x77; 255; 0xbf; 255; 255; 255; 255; 255; 255; 255]
     < uuid_to_Z [0; 0; 0; 0; 3; 232; 0x78; 0; 0x80; 0; 0; 0; 0; 0; 0; 0].
Proof.
  assert (Hall : Forall (fun o => previous_timestamp (state_after o) < 2 ^ 48)
    (calls initial_state
       [ {| c_clock := clock_at 1000;
            c_random := constant_source Byte.xff; c_heap := fun _ => Byte.x00 |};
         {| c_clock := clock_at 900;
            c_random := constant_source Byte.x00; c_heap := fun _ => Byte.x00 |} ])).
  { repeat constructor. }
  split; [exact Hall|].
  apply (monotonicity _ _ Hall 0%nat); vm_compute; reflexivity.
Defined.

(** ** Counter continuity *)

(** C6, as stated, fails: when a call aborts between two calls that return
    within one millisecond, the two returned identifiers, one right after
    the other among the outputs, share the timestamp and have counters two
    apart, because the aborted call has taken a counter value. *)
Lemma outputs_around_an_aborted_call_two_apart :
  exists u1 u2,
    omap returned
      (calls {| sequence_counter := 5; previous_timestamp := 1000 |}
         [ {| c_clock := clock_at 1000;
              c_random := constant_source Byte.x00; c_heap := fun _ => Byte.x00 |};
           {| c_clock := clock_at 1000;
              c_random := failing_source; c_heap := fun _ => Byte.x00 |};
           {| c_clock := clock_at 1000;
              c_random := constant_source Byte.x00; c_heap := fun _ => Byte.x00 |} ])
    = [u1; u2]
    /\ decoded_timestamp u1 = decoded_timestamp u2
    /\ decoded_counter u1 = 6 /\ decoded_counter u2 = 8
    /\ (decoded_counter u2 - decoded_counter u1) mod 262144 <> 1
    /\ (decoded_counter u1 - decoded_counter u2) mod 262144 <> 1.
Proof.
  eexists _, _. split; [vm_compute; reflexivity|].
  split; [vm_compute; reflexivity|]. split; [vm_compute; reflexivity|].
  split; [vm_compute; reflexivity|].
  split; vm_compute; discriminate.
Qed.

(** The same happens without any abort for identifiers that are not next to
    each other: of three identifiers made within one millisecond, the first
    and the third share the timestamp and their counters are two apart. *)
Lemma first_and_third_two_apart :
  exists u1 u2 u3,
    omap returned
      (calls {| sequence_counter := 5; previous_timestamp := 1000 |}
         [ {| c_clock := clock_at 1000;
              c_random := constant_source Byte.x00; c_heap := fun _ => Byte.x00 |};
           {| c_clock := clock_at 1000;
              c_random := constant_source Byte.x00; c_heap := fun _ => Byte.x00 |};
           {| c_clock := clock_at 1000;
              c_random := constant_source Byte.x00; c_heap := fun _ => Byte.x00 |} ])
    = [u1; u2; u3]
    /\ decoded_timestamp u1 = decoded_timestamp u3
    /\ (decoded_counter u3 - decoded_counter u1) mod 262144 = 2
    /\ (decoded_counter u1 - decoded_counter u3) mod 262144 <> 1.
Proof.
  eexists _, _, _. split; [vm_compute; reflexivity|].
  split; [vm_compute; reflexivity|].
  split; [vm_compute; reflexivity | vm_compute; discriminate].
Qed.

(** Past 48 bits even consecutive identifiers can share a timestamp with
    unrelated counters: a forward tick of exactly 2^48 milliseconds reseeds
    the counter and leaves the time part as it was. *)
Lemma forward_tick_of_2_48_reseeds :
  exists u1 u2,
    omap returned
      (calls {| sequence_counter := 5; previous_timestamp := 1000 |}
         [ {| c_clock := clock_at 1000;
              c_random := constant_source Byte.x00; c_heap := fun _ => Byte.x00 |};
           {| c_clock := clock_at (2 ^ 48 + 1000);
              c_random := constant_source Byte.xff; c_heap := fun _ => Byte.x00 |} ])
    = [u1; u2]
    /\ decoded_timestamp u1 = decoded_timestamp u2
    /\ decoded_counter u1 = 6 /\ decoded_counter u2 = 131071.
Proof.
  eexists _, _. split; [vm_compute; reflexivity|].
  repeat split; vm_compute; reflexivity.
Qed.

(** In a series of calls, the outcome at position [i + 1] is the call made
    from the static variables that the outcome at position [i] left. *)
Lemma calls_step cs : forall st i o o',
  calls st cs !! i = Some o -> calls st cs !! S i = Some o' ->
  exists c, cs !! S i = Some c
    /\ o' = uuidv7 (state_after o) (c_clock c) (c_random c) (c_heap c).
Proof.
  induction cs as [|c0 cs IH]; intros st i o o' Ho Ho'; [discriminate|].
  rewrite calls_cons in Ho, Ho'. destruct i as [|i].
  - cbn [lookup list_lookup] in Ho, Ho'. injection Ho as <-.
    destruct cs as [|c1 cs]; [discriminate|].
    rewrite calls_cons in Ho'. cbn [lookup list_lookup] in Ho'. injection Ho' as <-.
    exists c1. split; reflexivity.
  - cbn [lookup list_lookup] in Ho, Ho'.
    destruct (IH _ _ _ _ Ho Ho') as (c & Hc & ->).
    exists c. split; [exact Hc | reflexivity].
Qed.

(** Every outcome of a series is the outcome of one call of [uuidv7]. *)
Lemma calls_lookup_is_call cs : forall st i o,
  calls st cs !! i = Some o ->
  exists s tp rs heap, uuidv7 s tp rs heap = o.
Proof.
  induction cs as [|c cs IH]; intros st i o Ho; [discriminate|].
  rewrite calls_cons in Ho. destruct i as [|i]; cbn [lookup list_lookup] in Ho.
  - injection Ho as <-. eauto.
  - eapply IH. exact Ho.
Qed.

(** C6, amended: when two calls made back to back on one backend (the
    second starts from the static variables the first one left, no other
    call, returned or aborted, in between) both return, their identifiers
    share the decoded timestamp and the clock of the second call reads less
    than 2^48, the counter of the second is the counter of the first plus
    one; the same holds for the outcomes at two neighbouring positions of
    any series of calls; and from previous_timestamp = 1000,
    sequence_counter = 5 with the clock at 1000 the identifier decodes to
    timestamp 1000 and counter 6. *)
Theorem counter_continuity :
  (forall st tp1 rs1 heap1 u1 st1 tp2 rs2 heap2 u2 st2,
     uuidv7 st tp1 rs1 heap1 = Returned u1 st1 ->
     uuidv7 st1 tp2 rs2 heap2 = Returned u2 st2 ->
     now_ms tp2 < 2 ^ 48 ->
     decoded_timestamp u1 = decoded_timestamp u2 ->
     decoded_counter u2 = decoded_counter u1 + 1)
  /\ (forall st cs i u1 st1 u2 st2,
        calls st cs !! i = Some (Returned u1 st1) ->
        calls st cs !! S i = Some (Returned u2 st2) ->
        (forall c, cs !! S i = Some c -> now_ms (c_clock c) < 2 ^ 48) ->
        decoded_timestamp u1 = decoded_timestamp u2 ->
        decoded_counter u2 = decoded_counter u1 + 1)
  /\ (forall tp rs heap u st',
        now_ms tp = 1000 ->
        uuidv7 {| sequence_counter := 5; previous_timestamp := 1000 |} tp rs heap
        = Returned u st' ->
        decoded_timestamp u = 1000 /\ decoded_counter u = 6).
Proof.
  assert (Hpair : forall st tp1 rs1 heap1 u1 st1 tp2 rs2 heap2 u2 st2,
     uuidv7 st tp1 rs1 heap1 = Returned u1 st1 ->
     uuidv7 st1 tp2 rs2 heap2 = Returned u2 st2 ->
     now_ms tp2 < 2 ^ 48 ->
     decoded_timestamp u1 = decoded_timestamp u2 ->
     decoded_counter u2 = decoded_counter u1 + 1).
  { intros st tp1 rs1 heap1 u1 st1 tp2 rs2 heap2 u2 st2 Hcall1 Hcall2 Hnow Hts.
    destruct (uuidv7_returned _ _ _ _ _ _ Hcall1) as (t1 & -> & _ & _ & Hsc1 & Hbr1).
    destruct (uuidv7_returned _ _ _ _ _ _ Hcall2) as (t2 & -> & _ & _ & Hsc2 & Hbr2).
    rewrite !decoded_timestamp_layout in Hts.
    rewrite !decoded_counter_layout by assumption.
    assert (Hpos : 0 <= previous_timestamp st1).
    { pose proof (now_ms_range tp1).
      destruct Hbr1 as [[_ ->]|[Hge ->]]; [lia|].
      apply bump_timestamp_nonneg. lia. }
    destruct Hbr2 as [[Hlt Heq]|[_ ->]].
    + rewrite Heq in Hts.
      rewrite (Z.mod_small (previous_timestamp st1)),
              (Z.mod_small (now_ms tp2)) in Hts by lia.
      lia.
    + revert Hts. unfold bump, uint32, uint64.
      rewrite (Z.mod_small (sequence_counter st1 + 1)) by lia.
      destruct (Z.ltb_spec 0x3ffff (sequence_counter st1 + 1));
        cbn [sequence_counter previous_timestamp]; intros Hts.
      * rewrite mod_64_mod_48 in Hts. exfalso.
        revert Hts. Z.div_mod_to_equations. lia.
      * reflexivity. }
  split; [exact Hpair|]. split.
  - intros st cs i u1 st1 u2 st2 H1 H2 Hclk Hts.
    destruct (calls_step _ _ _ _ _ H1 H2) as (c & Hc & Hcall2).
    cbn [state_after] in Hcall2. symmetry in Hcall2.
    destruct (calls_lookup_is_call _ _ _ _ H1) as (s & tp & rs & heap & Hcall1).
    exact (Hpair _ _ _ _ _ _ _ _ _ _ _ Hcall1 Hcall2 (Hclk _ Hc) Hts).
  - intros tp rs heap u st' Hnow Hcall.
    destruct (uuidv7_returned _ _ _ _ _ _ Hcall) as (t & -> & _ & _ & Hsc & Hbr).
    rewrite decoded_timestamp_layout, decoded_counter_layout by assumption.
    cbn [previous_timestamp] in Hbr.
    destruct Hbr as [[Hlt _]|[_ ->]]; [lia|].
    split; reflexivity.
Qed.

Lemma counter_continuity_witness :
  uuidv7 {| sequence_counter := 5; previous_timestamp := 1000 |}
         (clock_at 1000) (constant_source Byte.xff) (fun _ => Byte.x00)
  = Returned [0; 0; 0; 0; 3; 232; 0x70; 0; 0x86; 255; 255; 255; 255; 255; 255; 255]
             {| sequence_counter := 6; previous_timestamp := 1000 |}
  /\ uuidv7 {| sequence_counter := 6; previous_timestamp := 1000 |}
            (clock_at 900) (constant_source Byte.x00) (fun _ => Byte.x00)
     = Returned [0; 0; 0; 0; 3; 232; 0x70; 0; 0x87; 0; 0; 0; 0; 0; 0; 0]
                {| sequence_counter := 7; previous_timestamp := 1000 |}
  /\ now_ms (clock_at 900) < 2 ^ 48
  /\ decoded_counter [0; 0; 0; 0; 3; 232; 0x70; 0; 0x87; 0; 0; 0; 0; 0; 0; 0]
     = decoded_counter
         [0; 0; 0; 0; 3; 232; 0x70; 0; 0x86; 255; 255; 255; 255; 255; 255; 255] + 1.
Proof.
  assert (H1 : uuidv7 {| sequence_counter := 5; previous_timestamp := 1000 |}
                 (clock_at 1000) (constant_source Byte.xff) (fun _ => Byte.x00)
    = Returned [0; 0; 0; 0; 3; 232; 0x70; 0; 0x86; 255; 255; 255; 255; 255; 255; 255]
               {| sequence_counter := 6; previous_timestamp := 1000 |})
    by (vm_compute; reflexivity).
  assert (H2 : uuidv7 {| sequence_counter := 6; previous_timestamp := 1000 |}
                 (clock_at 900) (constant_source Byte.x00) (fun _ => Byte.x00)
    = Returned [0; 0; 0; 0; 3; 232; 0x70; 0; 0x87; 0; 0; 0; 0; 0; 0; 0]
               {| sequence_counter := 7; previous_timestamp := 1000 |})
    by (vm_compute; reflexivity).
  assert (H3 : now_ms (clock_at 900) < 2 ^ 48) by (vm_compute; reflexivity).
  split; [exact H1|]. split; [exact H2|]. split; [exact H3|].
  apply (proj1 counter_continuity _ _ _ _ _ _ _ _ _ _ _ H1 H2 H3).
  vm_compute. reflexivity.
Defined.

(** ** Where the random bytes go *)







(** ** The counter layout *)

(** C8, as stated, fails: the seed read on a forward tick takes the low six
    bits of byte 8, not its top two.  Two fills that agree on the low
    nibble of byte 6, on byte 7 and on the top two bits of byte 8 seed
    different counters, and two fills that differ only in the top two bits
    of byte 8 seed the same one. *)
Lemma seed_reads_low_six_bits_of_byte_8 :
  let fill8 (b : Byte.byte) : RandomSource :=
    fun _ => Some (fun i => if Nat.eqb i 2 then b else Byte.x00) in
  let seed (b : Byte.byte) : Z :=
    sequence_counter
      (state_after (uuidv7 initial_state (clock_at 1000) (fill8 b) (fun _ => Byte.x00))) in
  Z.shiftr (byte_val Byte.x00) 6 = Z.shiftr (byte_val Byte.x3f) 6
  /\ seed Byte.x00 = 0 /\ seed Byte.x3f = 63
  /\ Z.shiftr (byte_val Byte.x00) 6 <> Z.shiftr (byte_val Byte.xc0) 6
  /\ seed Byte.xc0 = seed Byte.x00.
Proof.
  cbv zeta. split; [vm_compute; reflexivity|].
  split; [vm_compute; reflexivity|]. split; [vm_compute; reflexivity|].
  split; [vm_compute; discriminate | vm_compute; reflexivity].
Qed.

Lemma write_counter_bytes sc data :
  (9 <= length data)%nat ->
  write_counter sc data !!! 6%nat = uchar (Z.shiftr sc 14)
  /\ write_counter sc data !!! 7%nat = uchar (Z.shiftr sc 6)
  /\ write_counter sc data !!! 8%nat = uchar sc.
Proof.
  intros Hlen. unfold write_counter. cbv zeta. repeat split.
  - rewrite !list_lookup_total_insert_ne by lia.
    apply list_lookup_total_insert_eq. lia.
  - rewrite list_lookup_total_insert_ne by lia.
    apply list_lookup_total_insert_eq. rewrite length_insert. lia.
  - apply list_lookup_total_insert_eq. rewrite !length_insert. lia.
Qed.

Lemma set_version_variant_bytes data :
  (9 <= length data)%nat ->
  set_version_variant data !!! 6%nat = uchar (Z.lor (Z.land (data !!! 6%nat) 0x0f) 0x70)
  /\ set_version_variant data !!! 7%nat = data !!! 7%nat
  /\ set_version_variant data !!! 8%nat = uchar (Z.lor (Z.land (data !!! 8%nat) 0x3f) 0x80).
Proof.
  intros Hlen. unfold set_version_variant. cbv zeta. repeat split.
  - rewrite list_lookup_total_insert_ne by lia.
    apply list_lookup_total_insert_eq. lia.
  - rewrite !list_lookup_total_insert_ne by lia. reflexivity.
  - rewrite list_lookup_total_insert_eq by (rewrite length_insert; lia).
    rewrite list_lookup_total_insert_ne by lia. reflexivity.
Qed.

(** C8, amended: on a forward tick, after bit 3 of byte 6 is cleared, the
    new counter is made of the low three bits of byte 6 (its low nibble,
    bit 3 being zero), all of byte 7 and the low six bits of byte 8; that
    is the layout of the counter write, and for every 18-bit counter the
    read returns what the write stored, before and after version and
    variant are set. *)
Theorem counter_layout_roundtrip :
  (forall st tp rs heap f,
     previous_timestamp st < now_ms tp -> rs 10%nat = Some f ->
     sequence_counter (state_after (uuidv7 st tp rs heap))
     = byte_val (f 0%nat) mod 2 ^ 3 * 2 ^ 14
       + byte_val (f 1%nat) * 2 ^ 6
       + byte_val (f 2%nat) mod 2 ^ 6)
  /\ (forall sc data,
        0 <= sc < 2 ^ 18 -> (9 <= length data)%nat ->
        read_counter (write_counter sc data) = sc
        /\ read_counter (set_version_variant (write_counter sc data)) = sc).
Proof.
  split.
  - intros st tp rs heap f Hlt Hrs.
    rewrite (uuidv7_forward _ _ _ _ f Hlt Hrs). reflexivity.
  - intros sc data Hsc Hlen.
    destruct (write_counter_bytes sc data Hlen) as (W6 & W7 & W8).
    assert (Hlen' : (9 <= length (write_counter sc data))%nat).
    { unfold write_counter. cbv zeta. rewrite !length_insert. exact Hlen. }
    destruct (set_version_variant_bytes _ Hlen') as (V6 & V7 & V8).
    rewrite W6 in V6. rewrite W7 in V7. rewrite W8 in V8.
    split.
    + rewrite (read_counter_bytes _ _ _ _ W6 W7 W8) by apply uchar_range.
      unfold uchar. rewrite !Z.shiftr_div_pow2 by lia.
      Z.div_mod_to_equations; lia.
    + rewrite (read_counter_bytes _ _ _ _ V6 V7 V8) by apply uchar_range.
      rewrite (version_byte _ (uchar_range _)), (variant_byte _ (uchar_range _)).
      unfold uchar. rewrite !Z.shiftr_div_pow2 by lia.
      Z.div_mod_to_equations; lia.
Qed.

Lemma counter_layout_roundtrip_witness :
  0 <= 0x2c0de < 2 ^ 18
  /\ (9 <= length (palloc (fun _ => Byte.xff) UUID_LEN))%nat
  /\ read_counter (write_counter 0x2c0de (palloc (fun _ => Byte.xff) UUID_LEN)) = 0x2c0de
  /\ read_counter (set_version_variant
                     (write_counter 0x2c0de (palloc (fun _ => Byte.xff) UUID_LEN)))
     = 0x2c0de.
Proof.
  assert (Hsc : 0 <= 0x2c0de < 2 ^ 18) by (split; [discriminate | reflexivity]).
  assert (Hlen : (9 <= length (palloc (fun _ => Byte.xff) UUID_LEN))%nat)
    by (vm_compute; repeat constructor).
  split; [exact Hsc|]. split; [exact Hlen|].
  exact (proj2 counter_layout_roundtrip _ _ Hsc Hlen).
Defined.

(** * Further properties of [uuidv7] *)

(** ** Shape of a returned identifier *)

Lemma Forall_time_bytes t : Forall is_byte (time_bytes t).
Proof. unfold time_bytes. repeat constructor; apply uchar_range. Qed.

Lemma Forall_counter_bytes sc :
  0 <= sc < 2 ^ 18 -> Forall is_byte (counter_bytes sc).
Proof.
  intros Hsc. unfold counter_bytes, is_byte.
  repeat constructor; Z.div_mod_to_equations; lia.
Qed.

Lemma sort_key_range st :
  0 <= sequence_counter st < 2 ^ 18 ->
  0 <= sort_key st /\ sort_key st + 2 ^ 56 <= 2 ^ 128
  /\ sort_key st / 2 ^ 80 = previous_timestamp st mod 2 ^ 48.
Proof.
  intros Hsc. unfold sort_key.
  pose proof (counter_field_range _ Hsc) as Hc.
  pose proof (Z.mod_pos_bound (previous_timestamp st) (2 ^ 48) ltac:(lia)) as Ht.
  generalize dependent (counter_field (sequence_counter st)).
  generalize dependent (previous_timestamp st mod 2 ^ 48).
  intros t Ht c Hc. split; [lia|]. split; [lia|].
  Z.div_mod_to_equations; lia.
Qed.

(** A returned identifier has 16 bytes, each between 0 and 255; read as a
    big-endian integer it is below 2^128 and its leading 48 bits are the
    decoded timestamp. *)
Theorem returned_identifier_shape st tp rs heap u st' :
  uuidv7 st tp rs heap = Returned u st' ->
  length u = 16%nat
  /\ Forall is_byte u
  /\ 0 <= uuid_to_Z u < 2 ^ 128
  /\ uuid_to_Z u / 2 ^ 80 = decoded_timestamp u.
Proof.
  intros Hcall.
  destruct (uuidv7_returned _ _ _ _ _ _ Hcall) as (tail & -> & Hlen & Hb & Hsc & _).
  split; [unfold layout; rewrite !length_app, Hlen; reflexivity|].
  split.
  { unfold layout. apply Forall_app. split; [apply Forall_time_bytes|].
    apply Forall_app. split; [apply Forall_counter_bytes; exact Hsc | exact Hb]. }
  rewrite (uuid_to_Z_layout _ _ Hlen), decoded_timestamp_layout.
  pose proof (be_value_range _ Hb) as Hr. rewrite Hlen in Hr.
  change (256 ^ Z.of_nat 7) with (2 ^ 56) in Hr.
  destruct (sort_key_range st' Hsc) as (H0 & H1 & H2).
  split; [lia|]. rewrite <- H2.
  revert H0 H1 Hr. unfold sort_key.
  generalize (counter_field (sequence_counter st')).
  generalize (previous_timestamp st' mod 2 ^ 48). generalize (be_value tail).
  intros r t c H0 H1 Hr. Z.div_mod_to_equations; lia.
Qed.

Lemma returned_identifier_shape_witness :
  uuidv7 {| sequence_counter := 5; previous_timestamp := 1000 |}
         (clock_at 1000) (constant_source Byte.xff) (fun _ => Byte.x00)
  = Returned [0; 0; 0; 0; 3; 232; 0x70; 0; 0x86; 255; 255; 255; 255; 255; 255; 255]
             {| sequence_counter := 6; previous_timestamp := 1000 |}
  /\ length [0; 0; 0; 0; 3; 232; 0x70; 0; 0x86; 255; 255; 255; 255; 255; 255; 255]
     = 16%nat
  /\ uuid_to_Z [0; 0; 0; 0; 3; 232; 0x70; 0; 0x86; 255; 255; 255; 255; 255; 255; 255]
     / 2 ^ 80
     = decoded_timestamp
         [0; 0; 0; 0; 3; 232; 0x70; 0; 0x86; 255; 255; 255; 255; 255; 255; 255].
Proof.
  assert (Hcall : uuidv7 {| sequence_counter := 5; previous_timestamp := 1000 |}
                    (clock_at 1000) (constant_source Byte.xff) (fun _ => Byte.x00)
    = Returned [0; 0; 0; 0; 3; 232; 0x70; 0; 0x86; 255; 255; 255; 255; 255; 255; 255]
               {| sequence_counter := 6; previous_timestamp := 1000 |})
    by (vm_compute; reflexivity).
  split; [exact Hcall|].
  destruct (returned_identifier_shape _ _ _ _ _ _ Hcall) as (Hl & _ & _ & Ht).
  split; [exact Hl | exact Ht].
Defined.

(** ** Identifiers of any two calls compare as their fields do *)

(** Two returned identifiers, whatever calls made them, compare as their
    decoded timestamps when these differ and as their decoded counters
    when the timestamps agree. *)
Theorem identifiers_sort_by_fields st1 tp1 rs1 heap1 u1 st1' st2 tp2 rs2 heap2 u2 st2' :
  uuidv7 st1 tp1 rs1 heap1 = Returned u1 st1' ->
  uuidv7 st2 tp2 rs2 heap2 = Returned u2 st2' ->
  (decoded_timestamp u1 < decoded_timestamp u2 -> uuid_to_Z u1 < uuid_to_Z u2)
  /\ (decoded_timestamp u1 = decoded_timestamp u2 ->
      decoded_counter u1 < decoded_counter u2 -> uuid_to_Z u1 < uuid_to_Z u2).
Proof.
  intros Hcall1 Hcall2.
  destruct (uuidv7_returned _ _ _ _ _ _ Hcall1) as (t1 & -> & Hl1 & Hb1 & Hsc1 & _).
  destruct (uuidv7_returned _ _ _ _ _ _ Hcall2) as (t2 & -> & Hl2 & Hb2 & Hsc2 & _).
  rewrite !decoded_timestamp_layout, !decoded_counter_layout by assumption.
  rewrite (uuid_to_Z_layout _ _ Hl1), (uuid_to_Z_layout _ _ Hl2).
  pose proof (be_value_range _ Hb1) as Hr1. rewrite Hl1 in Hr1.
  pose proof (be_value_range _ Hb2) as Hr2. rewrite Hl2 in Hr2.
  change (256 ^ Z.of_nat 7) with (2 ^ 56) in Hr1, Hr2.
  pose proof (counter_field_range _ Hsc1) as Hc1.
  pose proof (counter_field_range _ Hsc2) as Hc2.
  unfold sort_key. split.
  - intros Hlt. lia.
  - intros Heq Hlt. rewrite Heq.
    pose proof (counter_field_mono _ _ (proj1 Hsc1) Hlt (proj2 Hsc2)). lia.
Qed.

Lemma identifiers_sort_by_fields_witness :
  uuidv7 {| sequence_counter := 262143; previous_timestamp := 1000 |}
         (clock_at 900) (constant_source Byte.xff) (fun _ => Byte.x00)
  = Returned [0; 0; 0; 0; 3; 233; 0x70; 0; 0x80; 255; 255; 255; 255; 255; 255; 255]
             {| sequence_counter := 0; previous_timestamp := 1001 |}
  /\ uuidv7 {| sequence_counter := 5; previous_timestamp := 1000 |}
            (clock_at 1000) (constant_source Byte.xff) (fun _ => Byte.x00)
     = Returned [0; 0; 0; 0; 3; 232; 0x70; 0; 0x86; 255; 255; 255; 255; 255; 255; 255]
                {| sequence_counter := 6; previous_timestamp := 1000 |}
  /\ uuid_to_Z [0; 0; 0; 0; 3; 232; 0x70; 0; 0x86; 255; 255; 255; 255; 255; 255; 255]
     < uuid_to_Z [0; 0; 0; 0; 3; 233; 0x70; 0; 0x80; 255; 255; 255; 255; 255; 255; 255].
Proof.
  assert (H1 : uuidv7 {| sequence_counter := 5; previous_timestamp := 1000 |}
                 (clock_at 1000) (constant_source Byte.xff) (fun _ => Byte.x00)
    = Returned [0; 0; 0; 0; 3; 232; 0x70; 0; 0x86; 255; 255; 255; 255; 255; 255; 255]
               {| sequence_counter := 6; previous_timestamp := 1000 |})
    by (vm_compute; reflexivity).
  assert (H2 : uuidv7 {| sequence_counter := 262143; previous_timestamp := 1000 |}
                 (clock_at 900) (constant_source Byte.xff) (fun _ => Byte.x00)
    = Returned [0; 0; 0; 0; 3; 233; 0x70; 0; 0x80; 255; 255; 255; 255; 255; 255; 255]
               {| sequence_counter := 0; previous_timestamp := 1001 |})
    by (vm_compute; reflexivity).
  split; [exact H2|]. split; [exact H1|].
  apply (proj1 (identifiers_sort_by_fields _ _ _ _ _ _ _ _ _ _ _ _ H1 H2)).
  vm_compute. reflexivity.
Defined.

(** ** What a call does not depend on *)

(** No byte of the uninitialised buffer reaches the outcome: the call gives
    the same result whatever [palloc] hands out. *)
Theorem heap_content_is_irrelevant st tp rs heap heap' :
  uuidv7 st tp rs heap = uuidv7 st tp rs heap'.
Proof.
  destruct (Z.lt_ge_cases (previous_timestamp st) (now_ms tp)) as [Hlt|Hge].
  - destruct (rs 10%nat) as [f|] eqn:Hrs.
    + rewrite !(uuidv7_forward _ _ _ _ f Hlt Hrs). reflexivity.
    + rewrite !(uuidv7_forward_raised _ _ _ _ Hlt Hrs). reflexivity.
  - destruct (rs 7%nat) as [f|] eqn:Hrs.
    + rewrite !(uuidv7_same_tick _ _ _ _ f Hge Hrs). reflexivity.
    + rewrite !(uuidv7_same_tick_raised _ _ _ _ Hge Hrs). reflexivity.
Qed.

(** A clock at or behind the stored timestamp leaves no trace: any two such
    readings give the same identifier and the same static variables. *)
Theorem stale_clock_is_irrelevant st tp tp' rs heap :
  now_ms tp <= previous_timestamp st ->
  now_ms tp' <= previous_timestamp st ->
  uuidv7 st tp rs heap = uuidv7 st tp' rs heap.
Proof.
  intros Hge Hge'. destruct (rs 7%nat) as [f|] eqn:Hrs.
  - rewrite (uuidv7_same_tick _ _ _ _ f Hge Hrs), (uuidv7_same_tick _ _ _ _ f Hge' Hrs).
    reflexivity.
  - rewrite (uuidv7_same_tick_raised _ _ _ _ Hge Hrs),
            (uuidv7_same_tick_raised _ _ _ _ Hge' Hrs).
    reflexivity.
Qed.

Lemma stale_clock_is_irrelevant_witness :
  now_ms (clock_at 1000) <= 1000 /\ now_ms (clock_at 3) <= 1000
  /\ uuidv7 {| sequence_counter := 5; previous_timestamp := 1000 |}
            (clock_at 1000) (constant_source Byte.xff) (fun _ => Byte.x00)
     = uuidv7 {| sequence_counter := 5; previous_timestamp := 1000 |}
              (clock_at 3) (constant_source Byte.xff) (fun _ => Byte.x00).
Proof.
  assert (H1 : now_ms (clock_at 1000)
               <= previous_timestamp {| sequence_counter := 5; previous_timestamp := 1000 |})
    by (vm_compute; discriminate).
  assert (H2 : now_ms (clock_at 3)
               <= previous_timestamp {| sequence_counter := 5; previous_timestamp := 1000 |})
    by (vm_compute; discriminate).
  split; [exact H1|]. split; [exact H2|].
  exact (stale_clock_is_irrelevant _ _ _ _ _ H1 H2).
Defined.

(** A forward tick starts afresh: the identifier it returns and the static
    variables it leaves are those of the clock and the random bytes alone,
    whatever counter and timestamp were stored before. *)
Theorem forward_tick_forgets_state st1 st2 tp rs heap u st' :
  previous_timestamp st1 < now_ms tp ->
  previous_timestamp st2 < now_ms tp ->
  uuidv7 st1 tp rs heap = Returned u st' ->
  uuidv7 st2 tp rs heap = Returned u st'.
Proof.
  intros Hlt1 Hlt2 Hcall. destruct (rs 10%nat) as [f|] eqn:Hrs.
  - rewrite (uuidv7_forward _ _ _ _ f Hlt1 Hrs) in Hcall.
    rewrite (uuidv7_forward _ _ _ _ f Hlt2 Hrs). exact Hcall.
  - rewrite (uuidv7_forward_raised _ _ _ _ Hlt1 Hrs) in Hcall. discriminate.
Qed.

Lemma forward_tick_forgets_state_witness :
  previous_timestamp {| sequence_counter := 5; previous_timestamp := 1000 |}
    < now_ms (clock_at 2000)
  /\ previous_timestamp initial_state < now_ms (clock_at 2000)
  /\ uuidv7 {| sequence_counter := 5; previous_timestamp := 1000 |}
            (clock_at 2000) (constant_source Byte.xff) (fun _ => Byte.x00)
     = Returned [0; 0; 0; 0; 7; 208; 0x77; 255; 0xbf; 255; 255; 255; 255; 255; 255; 255]
                {| sequence_counter := 131071; previous_timestamp := 2000 |}
  /\ uuidv7 initial_state (clock_at 2000) (constant_source Byte.xff) (fun _ => Byte.x00)
     = Returned [0; 0; 0; 0; 7; 208; 0x77; 255; 0xbf; 255; 255; 255; 255; 255; 255; 255]
                {| sequence_counter := 131071; previous_timestamp := 2000 |}.
Proof.
  assert (H1 : previous_timestamp {| sequence_counter := 5; previous_timestamp := 1000 |}
               < now_ms (clock_at 2000)) by (vm_compute; reflexivity).
  assert (H2 : previous_timestamp initial_state < now_ms (clock_at 2000))
    by (vm_compute; reflexivity).
  assert (Hcall : uuidv7 {| sequence_counter := 5; previous_timestamp := 1000 |}
                    (clock_at 2000) (constant_source Byte.xff) (fun _ => Byte.x00)
     = Returned [0; 0; 0; 0; 7; 208; 0x77; 255; 0xbf; 255; 255; 255; 255; 255; 255; 255]
                {| sequence_counter := 131071; previous_timestamp := 2000 |})
    by (vm_compute; reflexivity).
  split; [exact H1|]. split; [exact H2|]. split; [exact Hcall|].
  exact (forward_tick_forgets_state _ _ _ _ _ _ _ H1 H2 Hcall).
Defined.

(** ** The seed of a forward tick *)

(** On a forward tick the most significant counter bit is zero: the new
    counter is below 2^17, bit 3 of byte 6 of the identifier is clear, and
    the identifier carries the reading of the clock. *)
Theorem forward_tick_clears_top_counter_bit st tp rs heap u st' :
  previous_timestamp st < now_ms tp ->
  uuidv7 st tp rs heap = Returned u st' ->
  0 <= sequence_counter st' < 2 ^ 17
  /\ Z.testbit (u !!! 6%nat) 3 = false
  /\ 0x70 <= u !!! 6%nat <= 0x77
  /\ previous_timestamp st' = now_ms tp.
Proof.
  intros Hlt Hcall. destruct (rs 10%nat) as [f|] eqn:Hrs.
  - rewrite (uuidv7_forward _ _ _ _ f Hlt Hrs) in Hcall. injection Hcall as <- <-.
    cbn [sequence_counter previous_timestamp].
    split; [apply seeded_counter_range|].
    unfold layout; cbn [sequence_counter previous_timestamp].
    rewrite counter_bytes_seeded.
    change ((_ ++ _) !!! 6%nat) with (0x70 + byte_val (f 0%nat) mod 2 ^ 3).
    pose proof (Z.mod_pos_bound (byte_val (f 0%nat)) (2 ^ 3) ltac:(lia)) as Hm.
    split; [|split; [lia | reflexivity]].
    assert (Hc : 0x70 + byte_val (f 0%nat) mod 2 ^ 3 = 0x70
              \/ 0x70 + byte_val (f 0%nat) mod 2 ^ 3 = 0x71
              \/ 0x70 + byte_val (f 0%nat) mod 2 ^ 3 = 0x72
              \/ 0x70 + byte_val (f 0%nat) mod 2 ^ 3 = 0x73
              \/ 0x70 + byte_val (f 0%nat) mod 2 ^ 3 = 0x74
              \/ 0x70 + byte_val (f 0%nat) mod 2 ^ 3 = 0x75
              \/ 0x70 + byte_val (f 0%nat) mod 2 ^ 3 = 0x76
              \/ 0x70 + byte_val (f 0%nat) mod 2 ^ 3 = 0x77) by lia.
    repeat (destruct Hc as [->|Hc]; [reflexivity|]). rewrite Hc. reflexivity.
  - rewrite (uuidv7_forward_raised _ _ _ _ Hlt Hrs) in Hcall. discriminate.
Qed.

Lemma forward_tick_clears_top_counter_bit_witness :
  previous_timestamp initial_state < now_ms (clock_at 2000)
  /\ uuidv7 initial_state (clock_at 2000) (constant_source Byte.xff) (fun _ => Byte.x00)
     = Returned [0; 0; 0; 0; 7; 208; 0x77; 255; 0xbf; 255; 255; 255; 255; 255; 255; 255]
                {| sequence_counter := 131071; previous_timestamp := 2000 |}
  /\ 0 <= 131071 < 2 ^ 17.
Proof.
  assert (H1 : previous_timestamp initial_state < now_ms (clock_at 2000))
    by (vm_compute; reflexivity).
  assert (Hcall : uuidv7 initial_state (clock_at 2000) (constant_source Byte.xff)
                    (fun _ => Byte.x00)
     = Returned [0; 0; 0; 0; 7; 208; 0x77; 255; 0xbf; 255; 255; 255; 255; 255; 255; 255]
                {| sequence_counter := 131071; previous_timestamp := 2000 |})
    by (vm_compute; reflexivity).
  split; [exact H1|]. split; [exact Hcall|].
  exact (proj1 (forward_tick_clears_top_counter_bit _ _ _ _ _ _ H1 Hcall)).
Defined.

(** ** How the static variables move *)

Lemma same_tick_state_after st tp rs heap :
  now_ms tp <= previous_timestamp st ->
  state_after (uuidv7 st tp rs heap) = bump st.
Proof.
  intros Hge. destruct (rs 7%nat) as [f|] eqn:Hrs.
  - rewrite (uuidv7_same_tick _ _ _ _ f Hge Hrs). reflexivity.
  - rewrite (uuidv7_same_tick_raised _ _ _ _ Hge Hrs). reflexivity.
Qed.

(** The counter step counts the pair (timestamp, counter) up by one, the
    counter being the low 18 bits. *)
Lemma bump_closed_form st :
  0 <= sequence_counter st <= 262143 ->
  0 <= previous_timestamp st ->
  previous_timestamp st + (sequence_counter st + 1) / 2 ^ 18 < 2 ^ 64 ->
  bump st = {| sequence_counter := (sequence_counter st + 1) mod 2 ^ 18;
               previous_timestamp :=
                 previous_timestamp st + (sequence_counter st + 1) / 2 ^ 18 |}.
Proof.
  intros Hsc Hpos Hmax. unfold bump, uint32, uint64.
  rewrite (Z.mod_small (sequence_counter st + 1)) by lia.
  destruct (Z.ltb_spec 0x3ffff (sequence_counter st + 1)); f_equal.
  - Z.div_mod_to_equations; lia.
  - rewrite Z.mod_small by (Z.div_mod_to_equations; lia).
    Z.div_mod_to_equations; lia.
  - Z.div_mod_to_equations; lia.
  - Z.div_mod_to_equations; lia.
Qed.

(** The timestamp of a returned identifier is never behind the clock of its
    call nor behind the timestamp stored before, and it is ahead of both by
    at most one millisecond; below 2^48 it is the timestamp the identifier
    decodes to. *)
Theorem timestamp_never_behind st tp rs heap u st' :
  previous_timestamp st < 2 ^ 64 - 1 ->
  uuidv7 st tp rs heap = Returned u st' ->
  now_ms tp <= previous_timestamp st'
  /\ previous_timestamp st <= previous_timestamp st'
  /\ previous_timestamp st' <= Z.max (previous_timestamp st) (now_ms tp) + 1
  /\ (previous_timestamp st' < 2 ^ 48 ->
      decoded_timestamp u = previous_timestamp st').
Proof.
  intros Hmax Hcall.
  destruct (uuidv7_returned _ _ _ _ _ _ Hcall) as (tail & -> & _ & _ & _ & Hbr).
  pose proof (now_ms_range tp) as Hnow.
  rewrite decoded_timestamp_layout.
  assert (Hts : now_ms tp <= previous_timestamp st'
                /\ previous_timestamp st <= previous_timestamp st'
                /\ previous_timestamp st' <= Z.max (previous_timestamp st) (now_ms tp) + 1).
  { destruct Hbr as [[Hlt ->]|[Hge ->]]; [lia|].
    unfold bump, uint64.
    destruct (0x3ffff <? uint32 (sequence_counter st + 1)); cbn [previous_timestamp].
    - rewrite Z.mod_small by lia. lia.
    - lia. }
  destruct Hts as (H1 & H2 & H3). repeat split; try assumption.
  intros H48. apply Z.mod_small. lia.
Qed.

Lemma timestamp_never_behind_witness :
  previous_timestamp {| sequence_counter := 262143; previous_timestamp := 1000 |}
    < 2 ^ 64 - 1
  /\ uuidv7 {| sequence_counter := 262143; previous_timestamp := 1000 |}
            (clock_at 900) (constant_source Byte.xff) (fun _ => Byte.x00)
     = Returned [0; 0; 0; 0; 3; 233; 0x70; 0; 0x80; 255; 255; 255; 255; 255; 255; 255]
                {| sequence_counter := 0; previous_timestamp := 1001 |}
  /\ now_ms (clock_at 900) <= 1001 /\ 1000 <= 1001
  /\ 1001 <= Z.max 1000 (now_ms (clock_at 900)) + 1.
Proof.
  assert (Hmax : previous_timestamp
                   {| sequence_counter := 262143; previous_timestamp := 1000 |}
                 < 2 ^ 64 - 1) by (vm_compute; reflexivity).
  assert (Hcall : uuidv7 {| sequence_counter := 262143; previous_timestamp := 1000 |}
                    (clock_at 900) (constant_source Byte.xff) (fun _ => Byte.x00)
    = Returned [0; 0; 0; 0; 3; 233; 0x70; 0; 0x80; 255; 255; 255; 255; 255; 255; 255]
               {| sequence_counter := 0; previous_timestamp := 1001 |})
    by (vm_compute; reflexivity).
  split; [exact Hmax|]. split; [exact Hcall|].
  destruct (timestamp_never_behind _ _ _ _ _ _ Hmax Hcall) as (H1 & H2 & H3 & _).
  split; [exact H1|]. split; [exact H2 | exact H3].
Defined.

(** Every returned call moves the static variables strictly up in the
    order (timestamp, counter); an aborted call leaves them or moves them
    up. *)
Theorem call_advances_state st tp rs heap :
  0 <= sequence_counter st <= 262143 ->
  previous_timestamp st < 2 ^ 64 - 1 ->
  (forall u st', uuidv7 st tp rs heap = Returned u st' -> state_lt st st')
  /\ (forall st', uuidv7 st tp rs heap = Raised st' -> st' = st \/ state_lt st st').
Proof.
  intros Hsc Hmax.
  assert (Hbump : now_ms tp <= previous_timestamp st -> state_lt st (bump st)).
  { intros Hge. pose proof (now_ms_range tp).
    rewrite bump_closed_form by (try lia; Z.div_mod_to_equations; lia).
    unfold state_lt.
    cbn [sequence_counter previous_timestamp].
    destruct (Z.eq_dec (sequence_counter st) 262143) as [->|Hne].
    - left. change ((262143 + 1) / 2 ^ 18) with 1. lia.
    - right. rewrite Z.div_small, Z.mod_small by lia. lia. }
  split.
  - intros u st' Hcall.
    destruct (uuidv7_returned _ _ _ _ _ _ Hcall) as (tail & _ & _ & _ & _ & Hbr).
    destruct Hbr as [[Hlt Heq]|[Hge ->]]; [left; lia | auto].
  - intros st' Hcall.
    destruct (uuidv7_raised _ _ _ _ _ Hcall) as [(_ & _ & ->)|(Hge & _ & ->)]; auto.
Qed.

Lemma call_advances_state_witness :
  0 <= 262143 <= 262143 /\ 1000 < 2 ^ 64 - 1
  /\ uuidv7 {| sequence_counter := 262143; previous_timestamp := 1000 |}
            (clock_at 900) (constant_source Byte.xff) (fun _ => Byte.x00)
     = Returned [0; 0; 0; 0; 3; 233; 0x70; 0; 0x80; 255; 255; 255; 255; 255; 255; 255]
                {| sequence_counter := 0; previous_timestamp := 1001 |}
  /\ state_lt {| sequence_counter := 262143; previous_timestamp := 1000 |}
              {| sequence_counter := 0; previous_timestamp := 1001 |}.
Proof.
  assert (Hsc : 0 <= sequence_counter
                       {| sequence_counter := 262143; previous_timestamp := 1000 |}
                <= 262143) by (split; discriminate).
  assert (Hmax : previous_timestamp
                   {| sequence_counter := 262143; previous_timestamp := 1000 |}
                 < 2 ^ 64 - 1) by (vm_compute; reflexivity).
  assert (Hcall : uuidv7 {| sequence_counter := 262143; previous_timestamp := 1000 |}
                    (clock_at 900) (constant_source Byte.xff) (fun _ => Byte.x00)
    = Returned [0; 0; 0; 0; 3; 233; 0x70; 0; 0x80; 255; 255; 255; 255; 255; 255; 255]
               {| sequence_counter := 0; previous_timestamp := 1001 |})
    by (vm_compute; reflexivity).
  split; [exact Hsc|]. split; [exact Hmax|]. split; [exact Hcall|].
  exact (proj1 (call_advances_state _ (clock_at 900) (constant_source Byte.xff)
                  (fun _ => Byte.x00) Hsc Hmax) _ _ Hcall).
Defined.

(** ** Calls within one millisecond *)

Lemma length_calls cs : forall st, length (calls st cs) = length cs.
Proof.
  induction cs as [|c cs IH]; intros st; [reflexivity|].
  rewrite calls_cons. cbn [length]. rewrite IH. reflexivity.
Qed.

(** While the clock stays at or behind the stored timestamp, the calls,
    returned or aborted, count the pair (timestamp, counter) up one by one:
    after call number [i] (from 0) the counter is the old one plus [i + 1]
    modulo 2^18 and the timestamp has advanced by the number of times the
    counter wrapped. *)
Theorem same_tick_run cs : forall st,
  0 <= sequence_counter st <= 262143 ->
  previous_timestamp st
    + (sequence_counter st + Z.of_nat (length cs)) / 2 ^ 18 < 2 ^ 64 ->
  Forall (fun c => now_ms (c_clock c) <= previous_timestamp st) cs ->
  forall i o, calls st cs !! i = Some o ->
    state_after o
    = {| sequence_counter := (sequence_counter st + Z.of_nat i + 1) mod 2 ^ 18;
         previous_timestamp :=
           previous_timestamp st + (sequence_counter st + Z.of_nat i + 1) / 2 ^ 18 |}.
Proof.
  induction cs as [|c cs IH]; intros st Hsc Hmax Hclk i o Hi; [discriminate|].
  rewrite calls_cons in Hi. apply Forall_cons_1 in Hclk as [Hc Hclk].
  pose proof (now_ms_range (c_clock c)) as Hnow.
  cbn [length] in Hmax. rewrite Nat2Z.inj_succ in Hmax.
  assert (Hb : bump st
    = {| sequence_counter := (sequence_counter st + 1) mod 2 ^ 18;
         previous_timestamp :=
           previous_timestamp st + (sequence_counter st + 1) / 2 ^ 18 |}).
  { apply bump_closed_form; [lia | lia |].
    revert Hmax. generalize (Z.of_nat (length cs)) (Nat2Z.is_nonneg (length cs)).
    intros n Hn Hmax. Z.div_mod_to_equations; lia. }
  rewrite (same_tick_state_after _ _ _ _ Hc) in Hi.
  destruct i as [|i]; cbn [lookup list_lookup] in Hi.
  - injection Hi as <-. rewrite (same_tick_state_after _ _ _ _ Hc), Hb.
    change (Z.of_nat 0) with 0. rewrite Z.add_0_r. reflexivity.
  - rewrite (IH (bump st)) with (i := i) (o := o); [| | | |exact Hi].
    + rewrite Hb. cbn [sequence_counter previous_timestamp].
      rewrite Nat2Z.inj_succ.
      generalize (Z.of_nat i) (Nat2Z.is_nonneg i). intros n Hn.
      f_equal; Z.div_mod_to_equations; lia.
    + rewrite Hb. cbn [sequence_counter].
      pose proof (Z.mod_pos_bound (sequence_counter st + 1) (2 ^ 18) ltac:(lia)). lia.
    + rewrite Hb. cbn [sequence_counter previous_timestamp].
      revert Hmax. generalize (Z.of_nat (length cs)) (Nat2Z.is_nonneg (length cs)).
      intros n Hn Hmax. Z.div_mod_to_equations; lia.
    + eapply Forall_impl; [|exact Hclk]. cbn beta. intros c' Hc'.
      rewrite Hb. cbn [previous_timestamp]. Z.div_mod_to_equations; lia.
Qed.

Lemma same_tick_run_witness :
  0 <= 262142 <= 262143
  /\ 1000 + (262142 + Z.of_nat 3) / 2 ^ 18 < 2 ^ 64
  /\ state_after
       (uuidv7 {| sequence_counter := 0; previous_timestamp := 1001 |}
          (clock_at 1000) failing_source (fun _ => Byte.x00))
     = {| sequence_counter := (262142 + Z.of_nat 2 + 1) mod 2 ^ 18;
          previous_timestamp := 1000 + (262142 + Z.of_nat 2 + 1) / 2 ^ 18 |}.
Proof.
  assert (Hsc : 0 <= sequence_counter
                       {| sequence_counter := 262142; previous_timestamp := 1000 |}
                <= 262143) by (split; discriminate).
  assert (Hmax : previous_timestamp
                   {| sequence_counter := 262142; previous_timestamp := 1000 |}
                 + (sequence_counter
                      {| sequence_counter := 262142; previous_timestamp := 1000 |}
                    + Z.of_nat (length
                        [ {| c_clock := clock_at 1000; c_random := constant_source Byte.xff;
                             c_heap := fun _ => Byte.x00 |};
                          {| c_clock := clock_at 7; c_random := constant_source Byte.x00;
                             c_heap := fun _ => Byte.x00 |};
                          {| c_clock := clock_at 1000; c_random := failing_source;
                             c_heap := fun _ => Byte.x00 |} ])) / 2 ^ 18 < 2 ^ 64)
    by (vm_compute; reflexivity).
  split; [exact Hsc|]. split; [exact Hmax|].
  apply (same_tick_run _ _ Hsc Hmax) with (i := 2%nat).
  - repeat constructor; vm_compute; discriminate.
  - vm_compute. reflexivity.
Defined.

(** After a forward tick the backend can make 131072 further calls at that
    clock reading or behind it before the stored timestamp moves ahead of
    the clock. *)
Theorem reseed_capacity st tp rs heap u st1 cs :
  previous_timestamp st < now_ms tp ->
  uuidv7 st tp rs heap = Returned u st1 ->
  Z.of_nat (length cs) <= 131072 ->
  Forall (fun c => now_ms (c_clock c) <= now_ms tp) cs ->
  Forall (fun o => previous_timestamp (state_after o) = now_ms tp) (calls st1 cs).
Proof.
  intros Hlt Hcall Hlen Hclk. destruct (rs 10%nat) as [f|] eqn:Hrs.
  2: { rewrite (uuidv7_forward_raised _ _ _ _ Hlt Hrs) in Hcall. discriminate. }
  rewrite (uuidv7_forward _ _ _ _ f Hlt Hrs) in Hcall. injection Hcall as _ <-.
  pose proof (seeded_counter_range f) as Hseed.
  pose proof (now_ms_range tp) as Hnow.
  apply Forall_lookup. intros i o Hi.
  assert (Hilt : (i < length cs)%nat).
  { apply lookup_lt_Some in Hi. rewrite length_calls in Hi. exact Hi. }
  rewrite (same_tick_run cs {| sequence_counter := seeded_counter f;
                               previous_timestamp := now_ms tp |}) with (i := i) (o := o);
    cbn [sequence_counter previous_timestamp]; try assumption.
  - rewrite Z.div_small by lia. lia.
  - lia.
  - rewrite Z.div_small by lia. lia.
Qed.

Lemma reseed_capacity_witness :
  previous_timestamp initial_state < now_ms (clock_at 2000)
  /\ uuidv7 initial_state (clock_at 2000) (constant_source Byte.xff) (fun _ => Byte.x00)
     = Returned [0; 0; 0; 0; 7; 208; 0x77; 255; 0xbf; 255; 255; 255; 255; 255; 255; 255]
                {| sequence_counter := 131071; previous_timestamp := 2000 |}
  /\ Forall (fun o => previous_timestamp (state_after o) = now_ms (clock_at 2000))
       (calls {| sequence_counter := 131071; previous_timestamp := 2000 |}
          [ {| c_clock := clock_at 2000; c_random := constant_source Byte.x00;
               c_heap := fun _ => Byte.x00 |};
            {| c_clock := clock_at 1999; c_random := failing_source;
               c_heap := fun _ => Byte.x00 |} ]).
Proof.
  assert (H1 : previous_timestamp initial_state < now_ms (clock_at 2000))
    by (vm_compute; reflexivity).
  assert (Hcall : uuidv7 initial_state (clock_at 2000) (constant_source Byte.xff)
                    (fun _ => Byte.x00)
     = Returned [0; 0; 0; 0; 7; 208; 0x77; 255; 0xbf; 255; 255; 255; 255; 255; 255; 255]
                {| sequence_counter := 131071; previous_timestamp := 2000 |})
    by (vm_compute; reflexivity).
  split; [exact H1|]. split; [exact Hcall|].
  apply (reseed_capacity _ _ _ _ _ _ _ H1 Hcall).
  - vm_compute. discriminate.
  - repeat constructor; vm_compute; discriminate.
Defined.

(** ** The clock reading *)

(** For a time of day at or after the epoch whose milliseconds fit 64 bits
    the reading is seconds times 1000 plus whole milliseconds, without
    wrap-around; microseconds below a millisecond do not show, and a later
    time of day never reads less. *)
Theorem now_ms_exact tp :
  0 <= tv_sec tp -> 0 <= tv_usec tp < 1000000 ->
  tv_sec tp * 1000 + 999 < 2 ^ 64 ->
  now_ms tp = tv_sec tp * 1000 + tv_usec tp / 1000
  /\ now_ms {| tv_sec := tv_sec tp; tv_usec := tv_usec tp / 1000 * 1000 |} = now_ms tp
  /\ (forall tp', 0 <= tv_sec tp' -> 0 <= tv_usec tp' < 1000000 ->
        tv_sec tp' < tv_sec tp \/ (tv_sec tp' = tv_sec tp /\ tv_usec tp' <= tv_usec tp) ->
        now_ms tp' <= now_ms tp).
Proof.
  intros Hsec Husec Hmax.
  assert (Hexact : forall t, 0 <= tv_sec t -> 0 <= tv_usec t < 1000000 ->
            tv_sec t * 1000 + 999 < 2 ^ 64 ->
            now_ms t = tv_sec t * 1000 + tv_usec t / 1000).
  { intros t H1 H2 H3. unfold now_ms, uint64.
    rewrite Z.quot_div_nonneg by lia.
    assert (0 <= tv_usec t / 1000 < 1000) by (Z.div_mod_to_equations; lia).
    rewrite (Z.mod_small (tv_sec t)) by lia.
    rewrite (Z.mod_small (tv_sec t * 1000)) by lia.
    rewrite (Z.mod_small (tv_usec t / 1000)) by lia.
    apply Z.mod_small. lia. }
  split; [apply Hexact; assumption|]. split.
  - rewrite !Hexact; cbn [tv_sec tv_usec]; try assumption.
    + Z.div_mod_to_equations; lia.
    + Z.div_mod_to_equations; lia.
  - intros tp' Hsec' Husec' Hle. rewrite (Hexact tp) by assumption.
    rewrite Hexact by lia. Z.div_mod_to_equations; lia.
Qed.

Lemma now_ms_exact_witness :
  0 <= 1700000000 /\ 0 <= 123456 < 1000000 /\ 1700000000 * 1000 + 999 < 2 ^ 64
  /\ now_ms {| tv_sec := 1700000000; tv_usec := 123456 |}
     = 1700000000 * 1000 + 123456 / 1000.
Proof.
  assert (H1 : 0 <= tv_sec {| tv_sec := 1700000000; tv_usec := 123456 |})
    by discriminate.
  assert (H2 : 0 <= tv_usec {| tv_sec := 1700000000; tv_usec := 123456 |} < 1000000)
    by (split; [discriminate | reflexivity]).
  assert (H3 : tv_sec {| tv_sec := 1700000000; tv_usec := 123456 |} * 1000 + 999 < 2 ^ 64)
    by (vm_compute; reflexivity).
  split; [exact H1|]. split; [exact H2|]. split; [exact H3|].
  exact (proj1 (now_ms_exact _ H1 H2 H3)).
Defined.

(** Whatever the time of day, the reading is seconds times 1000 plus whole
    milliseconds reduced modulo 2^64; a time of day before the epoch
    therefore reads at least 2^63, far beyond the 48 bits of the time
    part. *)
Theorem now_ms_wraps tp :
  now_ms tp = (tv_sec tp * 1000 + Z.quot (tv_usec tp) 1000) mod 2 ^ 64
  /\ (tv_sec tp < 0 -> - 2 ^ 63 <= tv_sec tp * 1000 ->
      0 <= tv_usec tp < 1000000 ->
      2 ^ 63 <= now_ms tp).
Proof.
  assert (Hmod : now_ms tp = (tv_sec tp * 1000 + Z.quot (tv_usec tp) 1000) mod 2 ^ 64).
  { unfold now_ms, uint64.
    rewrite Z.mul_mod_idemp_l by lia. rewrite <- Z.add_mod by lia. reflexivity. }
  split; [exact Hmod|].
  intros Hneg Hlow Husec. rewrite Hmod. clear Hmod.
  rewrite Z.quot_div_nonneg by lia.
  assert (Hms : 0 <= tv_usec tp / 1000 < 1000) by (Z.div_mod_to_equations; lia).
  revert Hms Hneg Hlow. generalize (tv_usec tp / 1000) (tv_sec tp).
  intros ms s Hms Hneg Hlow. Z.div_mod_to_equations; lia.
Qed.

Lemma now_ms_wraps_witness :
  -1 < 0 /\ - 2 ^ 63 <= -1 * 1000 /\ 0 <= 500000 < 1000000
  /\ 2 ^ 63 <= now_ms {| tv_sec := -1; tv_usec := 500000 |}.
Proof.
  assert (H1 : tv_sec {| tv_sec := -1; tv_usec := 500000 |} < 0) by reflexivity.
  assert (H2 : - 2 ^ 63 <= tv_sec {| tv_sec := -1; tv_usec := 500000 |} * 1000)
    by (vm_compute; discriminate).
  assert (H3 : 0 <= tv_usec {| tv_sec := -1; tv_usec := 500000 |} < 1000000)
    by (split; [discriminate | reflexivity]).
  split; [exact H1|]. split; [exact H2|]. split; [exact H3|].
  exact (proj2 (now_ms_wraps _) H1 H2 H3).
Defined.
